(** * audiotsm.wsola: the WSOLA frame aligner and its parameter deriver

    A shallow embedding of [src/audiotsm/wsola.py] (class [WSOLAConverter]
    and function [wsola]) together with the part of numpy the module calls
    ([np.empty], [np.correlate], [np.argmax], [np.copyto], basic slicing).

    Modelling conventions.
    - Frame lengths, hops, tolerances, channel numbers and shifts are sample
      counts and array indices: they are natural numbers ([np.empty] rejects a
      negative dimension). Zero is kept, with what Python does there.
    - Audio samples (float64 in the source) are an arbitrary type with a zero,
      an addition, a multiplication and a boolean comparison (class
      [Sample]). Properties that compare scores assume the comparison is a
      total preorder (class [SampleOrder]), which is the case of floats
      without NaN.
    - A Python exception is a [Raise] result. The buffers of the converter are
      mutated in place, so a call that raises still returns the state it left
      behind.
    - The speed ratio of [wsola] is an IEEE 754 binary64 number (Rocq's
      primitive [float]). *)

From Stdlib Require Import ZArith Floats Lia.
From stdpp Require Import base list.

(** ** Exceptions *)

Inductive exception := IndexError | ValueError | OverflowError.

Inductive res (A : Type) :=
| Ok (a : A)
| Raise (e : exception).
Arguments Ok {A} a.
Arguments Raise {A} e.

#[global] Instance res_ret : MRet res := λ A a, Ok a.
#[global] Instance res_bind : MBind res := λ A B f m,
  match m with
  | Ok a => f a
  | Raise e => Raise e
  end.

#[global] Instance res_fmap : FMap res := λ A B f m,
  match m with
  | Ok a => Ok (f a)
  | Raise e => Raise e
  end.

Definition is_Ok {A} (r : res A) : bool :=
  match r with Ok _ => true | Raise _ => false end.

(** ** Samples *)

Class Sample (A : Type) := {
  sample_zero : A;
  sample_add : A → A → A;
  sample_mul : A → A → A;
  sample_le : A → A → bool
}.

Class SampleOrder (A : Type) `{Sample A} : Prop := {
  sample_le_total : ∀ x y : A, sample_le x y = true ∨ sample_le y x = true;
  sample_le_trans : ∀ x y z : A,
    sample_le x y = true → sample_le y z = true → sample_le x z = true
}.

(** Integer samples, used to run the model on concrete frames. *)
#[global] Instance Z_sample : Sample Z := {
  sample_zero := 0%Z;
  sample_add := Z.add;
  sample_mul := Z.mul;
  sample_le := Z.leb
}.

(** ** Python sequences *)

(** [a[k]] for [k >= 0]: IndexError out of range. *)
Definition getitem {A} (a : list A) (k : nat) : res A :=
  match a !! k with
  | Some x => Ok x
  | None => Raise IndexError
  end.

(** [a[start:stop]] for [start, stop >= 0]: both ends are clamped to the
    length, and the slice is empty when [stop <= start]. *)
Definition slice {A} (a : list A) (start stop : nat) : list A :=
  take (stop - start) (drop start a).

(** [a[:-n]] for [n >= 0]. For [n > 0] the last [n] elements are dropped;
    [-0] is [0], so [a[:-0]] is [a[:0]], the empty slice. *)
Definition slice_to_neg {A} (a : list A) (n : nat) : list A :=
  match n with
  | 0 => []
  | S _ => take (length a - n) a
  end.

(** ** numpy *)

Module np.
Section Arrays.
Context {A : Type} `{Sample A}.

(** [np.empty((rows, cols))]: an array whose contents are whatever the
    memory held, here [junk i j]. *)
Definition empty (junk : nat → nat → A) (rows cols : nat) : list (list A) :=
  (λ i, junk i <$> seq 0 cols) <$> seq 0 rows.

(** Sum of the element-wise products of two sequences. *)
Definition dot (xs ys : list A) : A :=
  foldl (λ acc p, sample_add acc (sample_mul p.1 p.2)) sample_zero (zip xs ys).

(** The sliding dot product of [v] along [a] at every offset where [v] lies
    entirely inside [a] ([len v <= len a]): mode 'valid'. *)
Definition correlate_valid (a v : list A) : list A :=
  (λ k, dot (slice a k (k + length v)) v) <$> seq 0 (length a - length v + 1).

(** [np.correlate(a, v)] with the default mode 'valid'. Empty operands are
    refused; when [a] is the shorter operand numpy swaps the two and
    reverses the result. *)
Definition correlate (a v : list A) : res (list A) :=
  if bool_decide (length a = 0) then Raise ValueError
  else if bool_decide (length v = 0) then Raise ValueError
  else if bool_decide (length a < length v) then Ok (reverse (correlate_valid v a))
  else Ok (correlate_valid a v).

(** The scan of [np.argmax]: [mp] is the running maximum, [max_ind] its
    index, [i] the index of the head of [ip]. The maximum moves only when an
    element is not [<=] to it, so the first occurrence wins. *)
Fixpoint argmax_scan (mp : A) (max_ind i : nat) (ip : list A) : nat :=
  match ip with
  | [] => max_ind
  | x :: ip' =>
      if sample_le x mp then argmax_scan mp max_ind (S i) ip'
      else argmax_scan x i (S i) ip'
  end.

(** [np.argmax(c)] of a one-dimensional array. *)
Definition argmax (c : list A) : res nat :=
  match c with
  | [] => Raise ValueError
  | x :: c' => Ok (argmax_scan x 0 1 c')
  end.

(** [np.copyto(dst, src)] for one-dimensional operands, as the new contents
    of [dst]: [src] must have the shape of [dst] or be broadcastable to it
    (one element, repeated). *)
Definition copyto (dst src : list A) : res (list A) :=
  if bool_decide (length src = length dst) then Ok src
  else match src with
       | [x] => Ok (replicate (length dst) x)
       | _ => Raise ValueError
       end.

End Arrays.
End np.

(** [m], at index [i] of the scores [c], is a maximum of [c], and every
    score before index [i] is strictly smaller. *)
Definition first_max {A} `{Sample A} (c : list A) (i : nat) (m : A) : Prop :=
  c !! i = Some m ∧
  (∀ j x, c !! j = Some x → sample_le x m = true) ∧
  (∀ j x, j < i → c !! j = Some x → sample_le m x = false).

(** A sample that compares equal to zero, and a silent sequence. *)
Definition is_zero {A} `{Sample A} (x : A) : Prop :=
  sample_le x sample_zero = true ∧ sample_le sample_zero x = true.


(** What silence needs of the arithmetic: a product with a zero factor is
    zero and a sum of zeros is zero (finite floats, with their two zeros). *)
Class SampleZero (A : Type) `{Sample A} : Prop := {
  sample_mul_zero_l : ∀ z x : A, is_zero z → is_zero (sample_mul z x);
  sample_mul_zero_r : ∀ x z : A, is_zero z → is_zero (sample_mul x z);
  sample_add_zero : ∀ a b : A, is_zero a → is_zero b → is_zero (sample_add a b)
}.

(** ** class WSOLAConverter *)

Module WSOLAConverter.
Section Converter.
Context {A : Type} `{Sample A}.

(** The attributes of an instance. [_synthesis_frame] and
    [_natural_progression] are arrays of shape (channels, frame_length),
    kept as lists of rows. *)
Record t := Self {
  _channels : nat;
  _frame_length : nat;
  _synthesis_hop : nat;
  _tolerance : nat;
  _synthesis_frame : list (list A);
  _natural_progression : list (list A);
  _first : bool
}.

(** What a call leaves behind: the instance after the call ([post]), the
    values the local variable [delta] took at lines 39 and 44, one per
    channel reached, in channel order ([deltas]), and the returned value or
    the exception ([outcome]). *)
Record run (R : Type) := Run {
  post : t;
  deltas : list nat;
  outcome : res R
}.
Arguments Run {R} post deltas outcome.
Arguments post {R} r.
Arguments deltas {R} r.
Arguments outcome {R} r.

(** [__init__], lines 23-31; [junk_s] and [junk_n] are the uninitialised
    contents of the two buffers. *)
Definition __init__ (junk_s junk_n : nat → nat → A)
    (channels frame_length synthesis_hop tolerance : nat) : t :=
  {| _channels := channels;
     _frame_length := frame_length;
     _synthesis_hop := synthesis_hop;
     _tolerance := tolerance;
     _synthesis_frame := np.empty junk_s channels frame_length;
     _natural_progression := np.empty junk_n channels frame_length;
     _first := true |}.

(** [clear], lines 33-34. *)
Definition clear (self : t) : t :=
  {| _channels := _channels self;
     _frame_length := _frame_length self;
     _synthesis_hop := _synthesis_hop self;
     _tolerance := _tolerance self;
     _synthesis_frame := _synthesis_frame self;
     _natural_progression := _natural_progression self;
     _first := true |}.

(** [self._first = False], line 57. *)
Definition set_not_first (self : t) : t :=
  {| _channels := _channels self;
     _frame_length := _frame_length self;
     _synthesis_hop := _synthesis_hop self;
     _tolerance := _tolerance self;
     _synthesis_frame := _synthesis_frame self;
     _natural_progression := _natural_progression self;
     _first := false |}.

(** [np.copyto(self._synthesis_frame[k], src)], line 48. *)
Definition copyto_synthesis_frame (self : t) (k : nat) (src : list A) : res t :=
  dst ← getitem (_synthesis_frame self) k;
  row ← np.copyto dst src;
  mret {| _channels := _channels self;
          _frame_length := _frame_length self;
          _synthesis_hop := _synthesis_hop self;
          _tolerance := _tolerance self;
          _synthesis_frame := <[k := row]> (_synthesis_frame self);
          _natural_progression := _natural_progression self;
          _first := _first self |}.

(** [np.copyto(self._natural_progression[k], src)], line 54. *)
Definition copyto_natural_progression (self : t) (k : nat) (src : list A) : res t :=
  dst ← getitem (_natural_progression self) k;
  row ← np.copyto dst src;
  mret {| _channels := _channels self;
          _frame_length := _frame_length self;
          _synthesis_hop := _synthesis_hop self;
          _tolerance := _tolerance self;
          _synthesis_frame := _synthesis_frame self;
          _natural_progression := <[k := row]> (_natural_progression self);
          _first := _first self |}.

(** The scores of line 41-43 for channel [k]: the correlation of
    [analysis_frame[k, :-synthesis_hop]] with [_natural_progression[k]]. *)
Definition cross_correlation (self : t) (analysis_frame : list (list A))
    (k : nat) : res (list A) :=
  row ← getitem analysis_frame k;
  progression ← getitem (_natural_progression self) k;
  np.correlate (slice_to_neg row (_synthesis_hop self)) progression.

(** The choice of [delta], lines 38-45. *)
Definition choose_delta (self : t) (analysis_frame : list (list A))
    (k : nat) : res nat :=
  if _first self then Ok 0
  else scores ← cross_correlation self analysis_frame k; np.argmax scores.

(** [analysis_frame[k, start:stop]]. *)
Definition frame_slice (analysis_frame : list (list A)) (k start stop : nat)
    : res (list A) :=
  row ← getitem analysis_frame k;
  mret (slice row start stop).

(** One turn of the loop for channel [k], lines 38-55. The two copies
    happen in order, and a copy that raises leaves the earlier one done. *)
Definition convert_channel (self : t) (analysis_frame : list (list A))
    (k : nat) : run () :=
  match choose_delta self analysis_frame k with
  | Raise e => Run self [] (Raise e)
  | Ok delta =>
      match
        src ← frame_slice analysis_frame k delta (delta + _frame_length self);
        copyto_synthesis_frame self k src
      with
      | Raise e => Run self [delta] (Raise e)
      | Ok self1 =>
          let delta' := delta + _synthesis_hop self1 in
          match
            src ← frame_slice analysis_frame k delta'
                    (delta' + _frame_length self1);
            copyto_natural_progression self1 k src
          with
          | Raise e => Run self1 [delta] (Raise e)
          | Ok self2 => Run self2 [delta] (Ok ())
          end
      end
  end.

(** The loop [for k in ...] over the channel numbers [ks], stopped by the
    first exception. *)
Fixpoint for_channels (ks : list nat) (self : t)
    (analysis_frame : list (list A)) : run () :=
  match ks with
  | [] => Run self [] (Ok ())
  | k :: ks' =>
      let r := convert_channel self analysis_frame k in
      match outcome r with
      | Raise e => r
      | Ok _ =>
          let r' := for_channels ks' (post r) analysis_frame in
          Run (post r') (deltas r ++ deltas r') (outcome r')
      end
  end.

(** [convert_frame], lines 36-59. The returned array is the buffer
    [self._synthesis_frame] itself. *)
Definition convert_frame (self : t) (analysis_frame : list (list A))
    : run (list (list A)) :=
  let r := for_channels (seq 0 (_channels self)) self analysis_frame in
  match outcome r with
  | Raise e => Run (post r) (deltas r) (Raise e)
  | Ok _ =>
      let self' := set_not_first (post r) in
      Run self' (deltas r) (Ok (_synthesis_frame self'))
  end.

(** The shape of a two-dimensional array. *)
Definition has_shape (a : list (list A)) (rows cols : nat) : Prop :=
  length a = rows ∧ Forall (λ row, length row = cols) a.

(** The shape [__init__] gives the two buffers; no method changes it. *)
Definition invariant (self : t) : Prop :=
  has_shape (_synthesis_frame self) (_channels self) (_frame_length self) ∧
  has_shape (_natural_progression self) (_channels self) (_frame_length self).

(** The frames the caller is to supply: one row per channel, each of
    frame_length + tolerance + synthesis_hop samples. *)
Definition extended_frame (self : t) (analysis_frame : list (list A)) : Prop :=
  has_shape analysis_frame (_channels self)
    (_frame_length self + _tolerance self + _synthesis_hop self).

(** An instance just built by [__init__], or just cleared. *)
Definition fresh (self : t) : Prop :=
  (∃ junk_s junk_n channels frame_length synthesis_hop tolerance,
     self = __init__ junk_s junk_n channels frame_length synthesis_hop tolerance)
  ∨ (∃ self0, invariant self0 ∧ self = clear self0).

(** The four attributes fixed by [__init__]. *)
Definition same_configuration (self1 self2 : t) : Prop :=
  _channels self1 = _channels self2 ∧
  _frame_length self1 = _frame_length self2 ∧
  _synthesis_hop self1 = _synthesis_hop self2 ∧
  _tolerance self1 = _tolerance self2.

(** Steps 3 and 4 of the specification of [convert_frame] for channel [k],
    whose row of the analysis frame is [row], once the shift [delta] is
    known: the synthesis frame becomes [row[delta : delta + L]] and the
    natural progression [row[delta + Hs : delta + Hs + L]]. *)
Definition spec_channel (self : t) (k : nat) (row : list A) (delta : nat) : t :=
  let L := _frame_length self in
  let Hs := _synthesis_hop self in
  {| _channels := _channels self;
     _frame_length := L;
     _synthesis_hop := Hs;
     _tolerance := _tolerance self;
     _synthesis_frame :=
       <[k := slice row delta (delta + L)]> (_synthesis_frame self);
     _natural_progression :=
       <[k := slice row (delta + Hs) (delta + Hs + L)]>
         (_natural_progression self);
     _first := _first self |}.

(** The same instance with another value of [_tolerance]. *)
Definition with_tolerance (tolerance : nat) (self : t) : t :=
  {| _channels := _channels self;
     _frame_length := _frame_length self;
     _synthesis_hop := _synthesis_hop self;
     _tolerance := tolerance;
     _synthesis_frame := _synthesis_frame self;
     _natural_progression := _natural_progression self;
     _first := _first self |}.

End Converter.
Arguments t A : clear implicits.
Arguments run A R : clear implicits.
Arguments Run {A R} post deltas outcome.
Arguments post {A R} r.
Arguments deltas {A R} r.
Arguments outcome {A R} r.
End WSOLAConverter.

(** ** def wsola *)

(** [float(n)] for an integer [n]: the nearest binary64 number, ties to
    even; OverflowError when there is none. *)
Definition float_of_int (n : Z) : res float :=
  let x := SF2Prim (binary_normalize prec emax n 0 false) in
  match Prim2SF x with
  | S754_infinity _ => Raise OverflowError
  | _ => Ok x
  end.

(** [int(x)] for a float [x]: the fractional part is dropped (rounding
    toward zero); NaN and the infinities are refused. *)
Definition int_of_float (x : float) : res Z :=
  match Prim2SF x with
  | S754_zero _ => Ok 0%Z
  | S754_infinity _ => Raise OverflowError
  | S754_nan => Raise ValueError
  | S754_finite s m e =>
      let magnitude := Z.shiftl (Z.pos m) e in
      Ok (if s then (- magnitude)%Z else magnitude)
  end.

(** The largest integer below or equal to a finite float [x]. *)
Definition floor_of_float (x : float) : res Z :=
  match Prim2SF x with
  | S754_zero _ => Ok 0%Z
  | S754_infinity _ => Raise OverflowError
  | S754_nan => Raise ValueError
  | S754_finite s m e =>
      Ok (Z.shiftl (if s then Z.neg m else Z.pos m) e)
  end.

(** [i * x] for an integer [i] and a float [x]. *)
Definition int_mul_float (i : Z) (x : float) : res float :=
  y ← float_of_int i; mret (PrimFloat.mul y x).

Module audiotsm.
Section Wsola.
Context {A : Type} `{Sample A}.

(** The window type and [hanning] come from audiotsm.utils.windows, which
    is outside the module; they are parameters here. *)
Context {window : Type} (hanning : nat → window).

(** The call [AnalysisSynthesisTSM(...)] of lines 108-111, as the record of
    its nine positional arguments. The class is defined in audiotsm.base,
    outside the module; the last two arguments are named after what is
    passed: the tolerance, and the padding tolerance + synthesis_hop. *)
Record AnalysisSynthesisTSM := TSM {
  tsm_converter : WSOLAConverter.t A;
  tsm_channels : nat;
  tsm_frame_length : nat;
  tsm_analysis_hop : Z;
  tsm_synthesis_hop : nat;
  tsm_analysis_window : option window;
  tsm_synthesis_window : window;
  tsm_tolerance : nat;
  tsm_padding : nat
}.

(** [wsola], lines 62-111. [None] is an argument left to its default;
    [junk_s] and [junk_n] are the uninitialised buffers of the converter. *)
Definition wsola (junk_s junk_n : nat → nat → A)
    (channels : nat) (speed : float) (frame_length : nat)
    (analysis_hop : option Z) (synthesis_hop tolerance : option nat)
    : res AnalysisSynthesisTSM :=
  let synthesis_hop :=
    match synthesis_hop with
    | None => Nat.div frame_length 2
    | Some h => h
    end in
  analysis_hop ←
    match analysis_hop with
    | None => x ← int_mul_float (Z.of_nat synthesis_hop) speed; int_of_float x
    | Some h => Ok h
    end;
  let tolerance :=
    match tolerance with
    | None => Nat.div frame_length 2
    | Some t => t
    end in
  let analysis_window := None in
  let synthesis_window := hanning frame_length in
  let converter :=
    WSOLAConverter.__init__ junk_s junk_n channels frame_length synthesis_hop
      tolerance in
  mret (TSM converter channels frame_length analysis_hop synthesis_hop
          analysis_window synthesis_window tolerance
          (tolerance + synthesis_hop)).

(** The resolution of the analysis hop as the specification words it:
    [analysis_hop] if given, else floor(Hs * speed). *)
Definition spec_analysis_hop (analysis_hop : option Z) (Hs : nat)
    (speed : float) : res Z :=
  match analysis_hop with
  | Some h => Ok h
  | None => x ← int_mul_float (Z.of_nat Hs) speed; floor_of_float x
  end.

End Wsola.
End audiotsm.

(** ** Concrete converters and frames

    Integer samples; the junk left by [np.empty] is [7] everywhere. *)

Module Examples.

Definition junk (i j : nat) : Z := 7%Z.

(** A converter in the middle of a stream: [channels] is the number of rows
    of the natural progression given. *)
Definition streaming (frame_length synthesis_hop tolerance : nat)
    (natural_progression : list (list Z)) : WSOLAConverter.t Z :=
  {| WSOLAConverter._channels := length natural_progression;
     WSOLAConverter._frame_length := frame_length;
     WSOLAConverter._synthesis_hop := synthesis_hop;
     WSOLAConverter._tolerance := tolerance;
     WSOLAConverter._synthesis_frame :=
       replicate (length natural_progression) (replicate frame_length 0%Z);
     WSOLAConverter._natural_progression := natural_progression;
     WSOLAConverter._first := false |}.

(** One channel, L = 1, Hs = 1, T = 5: the scores of a frame are its first
    six samples multiplied by the single stored sample. *)
Definition tie_converter : WSOLAConverter.t Z := streaming 1 1 5 [[1%Z]].
Definition tie_frame : list (list Z) := [[0; 1; 3; 2; 1; 3; 9]%Z].

(** One channel, L = 2, Hs = 1, T = 0. *)
Definition small_converter : WSOLAConverter.t Z :=
  WSOLAConverter.__init__ junk junk 1 2 1 0.
Definition long_frame : list (list Z) := [[1; 2; 3; 4]%Z].
Definition short_frame : list (list Z) := [[5; 7]%Z].

(** One channel, L = 1, T = 0 and a synthesis hop of zero: what
    [wsola(channels=1, frame_length=1)] builds. *)
Definition zero_hop_converter : WSOLAConverter.t Z :=
  WSOLAConverter.__init__ junk junk 1 1 0 0.
Definition zero_hop_frame : list (list Z) := [[3%Z]].

(** Two channels, L = 2, Hs = 1, T = 1. *)
Definition stereo_converter : WSOLAConverter.t Z :=
  streaming 2 1 1 [[1; 2]; [2; 1]]%Z.
Definition stereo_frame : list (list Z) := [[1; 2; 3; 4]; [4; 3; 2; 1]]%Z.
Definition stereo_frame' : list (list Z) := [[1; 2; 3; 4]; [0; 5; 0; 5]]%Z.

(** One channel, T = 1, Hs = 1 and a frame length of zero, in the middle
    of a stream. *)
Definition zero_length_converter : WSOLAConverter.t Z := streaming 0 1 1 [[]].
Definition zero_length_frame : list (list Z) := [[5; 6]%Z].

(** [zero_hop_converter] and [small_converter] after a first frame. *)
Definition zero_hop_streaming : WSOLAConverter.t Z :=
  WSOLAConverter.post
    (WSOLAConverter.convert_frame zero_hop_converter zero_hop_frame).
Definition small_streaming : WSOLAConverter.t Z :=
  WSOLAConverter.post (WSOLAConverter.convert_frame small_converter [[1; 2; 3]%Z]).

(** A stand-in for [hanning]: windows carry no information here. *)
Definition no_window (n : nat) : () := ().

(** A frame with a single row, for the two-channel converter. *)
Definition mono_frame : list (list Z) := [[1; 2; 3; 4]%Z].


End Examples.

(** * Verification *)

Import WSOLAConverter.

(** ** Slices and numpy *)

Section NumpyFacts.
Context {A : Type} `{Sample A}.
Implicit Types a v row c : list A.

Lemma length_slice a start stop :
  length (slice a start stop) = (stop - start) `min` (length a - start).
Proof. unfold slice. by rewrite length_take, length_drop. Qed.

Lemma length_slice_inside a start n :
  start + n ≤ length a → length (slice a start (start + n)) = n.
Proof. intros. rewrite length_slice. lia. Qed.

Lemma slice_0 a n : slice a 0 n = take n a.
Proof. unfold slice. by rewrite Nat.sub_0_r. Qed.

Lemma length_slice_to_neg a n :
  length (slice_to_neg a n) = if decide (n = 0) then 0 else length a - n.
Proof.
  destruct n as [|n]; [done|]. cbn [slice_to_neg].
  rewrite length_take. case_decide; lia.
Qed.

(** Dropping the last [n >= 1] samples of a row that has them keeps its
    first [length row - n] samples. *)
Lemma slice_to_neg_take a n :
  1 ≤ n → slice_to_neg a n = take (length a - n) a.
Proof. destruct n; [lia|done]. Qed.

Lemma length_correlate_valid a v :
  length (np.correlate_valid a v) = length a - length v + 1.
Proof. unfold np.correlate_valid. by rewrite length_fmap, length_seq. Qed.

Lemma lookup_correlate_valid a v k :
  k ≤ length a - length v →
  np.correlate_valid a v !! k = Some (np.dot (slice a k (k + length v)) v).
Proof.
  intros. unfold np.correlate_valid.
  rewrite list_lookup_fmap, lookup_seq_lt by lia. done.
Qed.

(** With operands that are not empty and [v] no longer than [a],
    [np.correlate] is the sliding dot product. *)
Lemma correlate_valid_case a v :
  1 ≤ length v → length v ≤ length a →
  np.correlate a v = Ok (np.correlate_valid a v).
Proof.
  intros. unfold np.correlate.
  rewrite !bool_decide_eq_false_2 by lia. done.
Qed.

Lemma correlate_Ok_inv a v c :
  np.correlate a v = Ok c →
  1 ≤ length a ∧ 1 ≤ length v ∧
  (length v ≤ length a → c = np.correlate_valid a v).
Proof.
  unfold np.correlate. repeat case_bool_decide; intros [= <-]; try lia.
  repeat split; lia.
Qed.

Lemma argmax_scan_range mp max_ind i ip :
  max_ind < i → np.argmax_scan mp max_ind i ip < i + length ip.
Proof.
  revert mp max_ind i. induction ip as [|x ip IH]; intros mp max_ind i Hlt.
  - cbn. lia.
  - cbn [np.argmax_scan length]. destruct (sample_le x mp).
    + pose proof (IH mp max_ind (S i) ltac:(lia)). lia.
    + pose proof (IH x i (S i) ltac:(lia)). lia.
Qed.

Lemma argmax_lt c delta : np.argmax c = Ok delta → delta < length c.
Proof.
  destruct c as [|x c]; [done|]. intros [= <-].
  pose proof (argmax_scan_range x 0 1 c ltac:(lia)). cbn [length]. lia.
Qed.

Lemma argmax_Ok c : 1 ≤ length c → ∃ delta, np.argmax c = Ok delta.
Proof. destruct c; cbn; [lia|eauto]. Qed.

Lemma copyto_same_length (dst src : list A) :
  length src = length dst → np.copyto dst src = Ok src.
Proof. intros. unfold np.copyto. by rewrite bool_decide_eq_true_2. Qed.

Lemma copyto_Ok_inv (dst src new : list A) :
  np.copyto dst src = Ok new → length src = length dst ∨ length src = 1.
Proof.
  unfold np.copyto. case_bool_decide; [by left|].
  destruct src as [|x [|??]]; [done|by right|done].
Qed.

Lemma copyto_length (dst src new : list A) :
  np.copyto dst src = Ok new → length new = length dst.
Proof.
  unfold np.copyto. case_bool_decide; [by intros [= <-]|].
  destruct src as [|x [|??]]; [done| |done].
  intros [= <-]. by rewrite length_replicate.
Qed.

End NumpyFacts.

(** ** np.argmax returns the first index of a maximum *)

Section ArgmaxFacts.
Context {A : Type} `{SampleOrder A}.
Implicit Types c pre ip : list A.

Lemma sample_le_refl (x : A) : sample_le x x = true.
Proof. by destruct (sample_le_total x x). Qed.

Lemma sample_le_false (x y : A) : sample_le x y = false → sample_le y x = true.
Proof. intros Hxy. destruct (sample_le_total x y); congruence. Qed.

Lemma argmax_scan_first_max pre ip mp max_ind :
  first_max pre max_ind mp →
  ∃ m, first_max (pre ++ ip) (np.argmax_scan mp max_ind (length pre) ip) m.
Proof.
  revert pre mp max_ind.
  induction ip as [|x ip IH]; intros pre mp max_ind (Hat & Hmax & Hbefore).
  { exists mp. rewrite app_nil_r. by repeat split. }
  cbn [np.argmax_scan].
  assert (max_ind < length pre) by by eapply lookup_lt_Some.
  replace (pre ++ x :: ip) with ((pre ++ [x]) ++ ip) by by rewrite <-app_assoc.
  replace (S (length pre)) with (length (pre ++ [x]))
    by (rewrite length_app; cbn; lia).
  destruct (sample_le x mp) eqn:Hx; apply IH; repeat split.
  - by rewrite lookup_app_l.
  - intros j y [[_ Hy]|[_ ->]]%lookup_snoc_Some; [eauto|done].
  - intros j y Hj Hy. rewrite lookup_app_l in Hy by lia. eauto.
  - by rewrite lookup_app_r, Nat.sub_diag.
  - intros j y [[_ Hy]|[_ ->]]%lookup_snoc_Some; [|apply sample_le_refl].
    eapply sample_le_trans; [eauto|]. by apply sample_le_false.
  - intros j y Hj Hy. rewrite lookup_app_l in Hy by lia.
    destruct (sample_le x y) eqn:Hxy; [|done].
    rewrite (sample_le_trans x y mp) in Hx; eauto.
Qed.

Lemma argmax_first_max c delta :
  np.argmax c = Ok delta → ∃ m, first_max c delta m.
Proof.
  destruct c as [|x c]; [done|]. intros [= <-].
  apply (argmax_scan_first_max [x] c x 0).
  repeat split; [|lia..].
  intros [|j] y; [|done]. intros [= <-]. apply sample_le_refl.
Qed.

(** The first index of a maximum is unique. *)
Lemma first_max_index c i j m m' :
  first_max c i m → first_max c j m' → i = j.
Proof.
  intros (Hi & Hmaxi & Hbeforei) (Hj & Hmaxj & Hbeforej).
  destruct (Nat.lt_trichotomy i j) as [Hlt|[->|Hlt]]; [|done|].
  - pose proof (Hbeforej _ _ Hlt Hi) as Hf. rewrite (Hmaxi _ _ Hj) in Hf. done.
  - pose proof (Hbeforei _ _ Hlt Hj) as Hf. rewrite (Hmaxj _ _ Hi) in Hf. done.
Qed.

End ArgmaxFacts.

(** ** One channel *)

Section ChannelFacts.
Context {A : Type} `{Sample A}.
Implicit Types (self : t A) (fr : list (list A)) (row : list A).

Lemma getitem_Some {B} (a : list B) k x : a !! k = Some x → getitem a k = Ok x.
Proof. unfold getitem. by intros ->. Qed.

Lemma getitem_Ok_inv {B} (a : list B) k x : getitem a k = Ok x → a !! k = Some x.
Proof. unfold getitem. destruct (a !! k); by intros [= <-]. Qed.

Lemma has_shape_lookup (a : list (list A)) rows cols k row :
  has_shape a rows cols → a !! k = Some row → k < rows ∧ length row = cols.
Proof.
  intros [<- Hall] Hk. split; [by eapply lookup_lt_Some|].
  by eapply (proj1 (Forall_lookup _ _) Hall).
Qed.

Lemma has_shape_row (a : list (list A)) rows cols k :
  has_shape a rows cols → k < rows → ∃ row, a !! k = Some row ∧ length row = cols.
Proof.
  intros Hs Hk. destruct (lookup_lt_is_Some_2 a k) as [row Hrow].
  { destruct Hs as [-> _]. done. }
  exists row. split; [done|]. by eapply has_shape_lookup.
Qed.

Lemma has_shape_insert (a : list (list A)) rows cols k row :
  has_shape a rows cols → length row = cols → has_shape (<[k := row]> a) rows cols.
Proof.
  intros [Hlen Hall] Hrow. split; [by rewrite length_insert|].
  by apply Forall_insert.
Qed.

(** The shift chosen for channel [k] reads the first-call flag, the
    synthesis hop, row [k] of the natural progression and row [k] of the
    analysis frame, and nothing else. *)
Lemma choose_delta_ext self1 self2 fr1 fr2 k :
  _first self1 = _first self2 →
  _synthesis_hop self1 = _synthesis_hop self2 →
  _natural_progression self1 !! k = _natural_progression self2 !! k →
  fr1 !! k = fr2 !! k →
  choose_delta self1 fr1 k = choose_delta self2 fr2 k.
Proof.
  intros Hf Hh Hn Hr. unfold choose_delta, cross_correlation, getitem.
  by rewrite Hf, Hh, Hn, Hr.
Qed.

Lemma choose_delta_first self fr k :
  _first self = true → choose_delta self fr k = Ok 0.
Proof. unfold choose_delta. by intros ->. Qed.

Lemma choose_delta_Ok_inv self fr k delta :
  _first self = false → choose_delta self fr k = Ok delta →
  ∃ scores, cross_correlation self fr k = Ok scores ∧ np.argmax scores = Ok delta.
Proof.
  unfold choose_delta. intros ->.
  destruct (cross_correlation self fr k) as [scores|e]; [|done].
  cbn. eauto.
Qed.

Lemma cross_correlation_Ok_inv self fr k scores :
  cross_correlation self fr k = Ok scores →
  ∃ row v, fr !! k = Some row ∧ _natural_progression self !! k = Some v ∧
    np.correlate (slice_to_neg row (_synthesis_hop self)) v = Ok scores.
Proof.
  unfold cross_correlation, getitem.
  destruct (fr !! k) as [row|]; [|done].
  destruct (_natural_progression self !! k) as [v|]; [|done].
  cbn. eauto.
Qed.

(** On a row of at least [L + Hs] samples, with [L >= 1] and [Hs >= 1],
    the scores are the sliding dot product of the natural progression along
    the row without its last [Hs] samples. *)
Lemma cross_correlation_valid self fr k row v :
  fr !! k = Some row → _natural_progression self !! k = Some v →
  length v = _frame_length self →
  1 ≤ _frame_length self → 1 ≤ _synthesis_hop self →
  _frame_length self + _synthesis_hop self ≤ length row →
  cross_correlation self fr k
  = Ok (np.correlate_valid (take (length row - _synthesis_hop self) row) v).
Proof.
  intros Hrow Hv Hlen HL HHs HN. unfold cross_correlation.
  rewrite (getitem_Some _ _ _ Hrow), (getitem_Some _ _ _ Hv). cbn.
  rewrite slice_to_neg_take by done.
  apply correlate_valid_case; [lia|]. rewrite length_take. lia.
Qed.

(** Whenever a shift is chosen on a row of [N >= L + Hs] samples, the
    two slices copied afterwards lie inside the row. *)
Lemma choose_delta_bound self fr k row delta :
  has_shape (_natural_progression self) (_channels self) (_frame_length self) →
  fr !! k = Some row →
  _frame_length self + _synthesis_hop self ≤ length row →
  choose_delta self fr k = Ok delta →
  delta + _frame_length self + _synthesis_hop self ≤ length row.
Proof.
  intros Hshape Hrow HN Hd.
  destruct (_first self) eqn:Hf.
  { rewrite choose_delta_first in Hd by done. injection Hd as <-. lia. }
  apply choose_delta_Ok_inv in Hd as (scores & Hcc & Hmax); [|done].
  apply cross_correlation_Ok_inv in Hcc as (row' & v & Hrow' & Hv & Hcc).
  assert (row' = row) as -> by congruence.
  destruct (has_shape_lookup _ _ _ _ _ Hshape Hv) as [_ Hlen].
  apply correlate_Ok_inv in Hcc as (Ha & _ & Hc).
  rewrite length_slice_to_neg in Ha, Hc. case_decide; [lia|].
  rewrite Hc in Hmax by lia. apply argmax_lt in Hmax.
  rewrite length_correlate_valid, length_slice_to_neg in Hmax.
  case_decide; lia.
Qed.

End ChannelFacts.

(** ** One turn of the loop *)

Section TurnFacts.
Context {A : Type} `{Sample A}.
Implicit Types (self : t A) (fr : list (list A)) (row : list A).

Ltac case_scrutinee :=
  match goal with
  | |- context [match ?x with _ => _ end] =>
      lazymatch x with
      | context [match _ with _ => _ end] => fail
      | _ => destruct x eqn:?; cbn [post deltas outcome]
      end
  end.

Ltac unfold_turn :=
  unfold convert_channel, copyto_synthesis_frame, copyto_natural_progression,
    frame_slice, getitem, mbind, mret, res_bind, res_ret.

(** A turn changes nothing but row [k] of the two buffers. *)
Lemma convert_channel_post self fr k :
  let r := convert_channel self fr k in
  same_configuration (post r) self ∧ _first (post r) = _first self ∧
  (∀ j, j ≠ k →
     _synthesis_frame (post r) !! j = _synthesis_frame self !! j ∧
     _natural_progression (post r) !! j = _natural_progression self !! j).
Proof.
  unfold_turn. cbv zeta.
  repeat case_scrutinee; cbn; repeat split; try done;
    simplify_eq/=; by rewrite ?list_lookup_insert_ne.
Qed.

(** A turn keeps the shape of the buffers. *)
Lemma convert_channel_invariant self fr k :
  invariant self → invariant (post (convert_channel self fr k)).
Proof.
  intros [Hs Hn]. unfold_turn.
  repeat case_scrutinee; cbn; try done; simplify_eq/=; split; cbn; try done;
    apply has_shape_insert; try done;
    match goal with
    | Hc : np.copyto ?dst _ = Ok ?new |- length ?new = _ =>
        rewrite (copyto_length _ _ _ Hc);
        eapply proj2, has_shape_lookup; [|eassumption]; eassumption
    end.
Qed.

(** A turn records the shift it chose, if it chose one; it fails without
    side effect when the choice itself fails, and it records a shift
    whenever it completes. *)
Lemma convert_channel_deltas self fr k :
  let r := convert_channel self fr k in
  (∃ e, choose_delta self fr k = Raise e ∧ r = Run self [] (Raise e)) ∨
  (∃ delta, choose_delta self fr k = Ok delta ∧ deltas r = [delta]).
Proof.
  unfold_turn. cbv zeta.
  destruct (choose_delta self fr k) as [delta|e]; [right|left; eauto].
  exists delta. split; [done|]. by repeat case_scrutinee.
Qed.

(** On a row long enough for the two copies, a turn that chose [delta]
    completes and does what steps 3 and 4 of the specification say. *)
Lemma convert_channel_ok self fr k row delta :
  invariant self → fr !! k = Some row → k < _channels self →
  choose_delta self fr k = Ok delta →
  delta + _frame_length self + _synthesis_hop self ≤ length row →
  convert_channel self fr k = Run (spec_channel self k row delta) [delta] (Ok ()).
Proof.
  intros [Hs Hn] Hrow Hk Hd Hlen.
  destruct (has_shape_row _ _ _ k Hs Hk) as (dst1 & Hdst1 & Hl1).
  destruct (has_shape_row _ _ _ k Hn Hk) as (dst2 & Hdst2 & Hl2).
  unfold_turn. rewrite Hd, Hrow, Hdst1.
  rewrite copyto_same_length by (rewrite length_slice_inside; lia).
  cbn. rewrite Hdst2.
  rewrite copyto_same_length by (rewrite length_slice_inside; lia).
  done.
Qed.

(** A turn that completes has chosen a shift and made the second copy,
    from a slice that has the length of the buffer row or a single
    sample. *)
Lemma convert_channel_Ok_inv self fr k :
  outcome (convert_channel self fr k) = Ok () →
  ∃ delta row dst new,
    choose_delta self fr k = Ok delta ∧
    deltas (convert_channel self fr k) = [delta] ∧
    fr !! k = Some row ∧ _natural_progression self !! k = Some dst ∧
    np.copyto dst
      (slice row (delta + _synthesis_hop self)
         (delta + _synthesis_hop self + _frame_length self)) = Ok new.
Proof.
  unfold_turn.
  repeat case_scrutinee; try done; simplify_eq/=. intros _.
  eauto 10.
Qed.

End TurnFacts.

(** ** The loop over the channels *)

Section LoopFacts.
Context {A : Type} `{Sample A}.
Implicit Types (self : t A) (fr : list (list A)) (row : list A).

(** The loop changes nothing but the rows of the channels it visits. *)
Lemma for_channels_post ks self fr :
  let r := for_channels ks self fr in
  same_configuration (post r) self ∧ _first (post r) = _first self ∧
  (invariant self → invariant (post r)) ∧
  (∀ j, j ∉ ks →
     _synthesis_frame (post r) !! j = _synthesis_frame self !! j ∧
     _natural_progression (post r) !! j = _natural_progression self !! j).
Proof.
  revert self. induction ks as [|k ks IH]; intros self; cbn.
  { unfold same_configuration. intuition. }
  pose proof (convert_channel_post self fr k) as ((?&?&?&?) & Hf & Hrows).
  pose proof (convert_channel_invariant self fr k) as Hinv.
  destruct (outcome (convert_channel self fr k)).
  - destruct (IH (post (convert_channel self fr k)))
      as ((?&?&?&?) & Hf' & Hinv' & Hrows').
    cbn. split; [repeat split; congruence|].
    split; [congruence|]. split; [tauto|].
    intros j [Hjk Hj]%not_elem_of_cons.
    destruct (Hrows j Hjk), (Hrows' j Hj). split; congruence.
  - split; [by repeat split|]. split; [done|]. split; [done|].
    intros j [Hjk Hj]%not_elem_of_cons. by destruct (Hrows j Hjk).
Qed.

(** Every shift the loop records is the one [choose_delta] computes for
    that channel on the state before the loop: the earlier turns do not
    touch what the choice reads. *)
Lemma for_channels_deltas ks self fr i delta :
  NoDup ks →
  deltas (for_channels ks self fr) !! i = Some delta →
  ∃ k, ks !! i = Some k ∧ choose_delta self fr k = Ok delta.
Proof.
  revert self i. induction ks as [|k ks IH]; intros self i Hnd; [done|].
  apply NoDup_cons in Hnd as [Hk Hnd]. cbn.
  pose proof (convert_channel_post self fr k) as ((?&?&?&?) & Hf & Hrows).
  destruct (convert_channel_deltas self fr k)
    as [(e & _ & ->)|(d & Hd & Hds)]; [done|].
  destruct (outcome (convert_channel self fr k)); cbn; rewrite Hds.
  - destruct i as [|i]; cbn.
    { intros [= <-]. eauto. }
    intros (k' & Hk' & Hd')%IH; [|done].
    exists k'. split; [done|]. rewrite <-Hd'.
    assert (k' ≠ k) as Hne.
    { intros ->. apply Hk. by eapply list_elem_of_lookup_2. }
    destruct (Hrows k' Hne). by apply choose_delta_ext.
  - destruct i as [|i]; [|done]. intros [= <-]. eauto.
Qed.

(** The shift is chosen whenever the row can hold the two copies and the
    call is the first one, or the frame length and the hop are positive. *)
Lemma choose_delta_total self fr k row :
  invariant self → k < _channels self → fr !! k = Some row →
  _frame_length self + _synthesis_hop self ≤ length row →
  _first self = true ∨ (1 ≤ _frame_length self ∧ 1 ≤ _synthesis_hop self) →
  ∃ delta, choose_delta self fr k = Ok delta.
Proof.
  intros [_ Hn] Hk Hrow Hlen Hmode.
  destruct (_first self) eqn:Hf.
  { exists 0. by apply choose_delta_first. }
  destruct Hmode as [|[HL HHs]]; [done|].
  destruct (has_shape_row _ _ _ k Hn Hk) as (v & Hv & Hlv).
  unfold choose_delta. rewrite Hf.
  rewrite (cross_correlation_valid self fr k row v) by done. cbn.
  apply argmax_Ok. rewrite length_correlate_valid. lia.
Qed.

Lemma spec_channel_invariant self k row delta :
  invariant self →
  delta + _frame_length self + _synthesis_hop self ≤ length row →
  invariant (spec_channel self k row delta).
Proof.
  intros [Hs Hn] Hlen.
  split; cbn; apply has_shape_insert; try done;
    rewrite length_slice_inside; lia.
Qed.

(** On rows long enough for the two copies, the loop over the channels
    [a, a + 1, ..., a + n - 1] completes, and leaves in each of them the
    slices of steps 3 and 4 of the specification at the recorded shift. *)
Lemma for_channels_ok n a self fr :
  invariant self → a + n ≤ _channels self →
  (∀ k, a ≤ k < a + n → ∃ row, fr !! k = Some row ∧
     _frame_length self + _synthesis_hop self ≤ length row) →
  n = 0 ∨ _first self = true ∨
    (1 ≤ _frame_length self ∧ 1 ≤ _synthesis_hop self) →
  let r := for_channels (seq a n) self fr in
  outcome r = Ok () ∧ length (deltas r) = n ∧
  ∀ k row, a ≤ k < a + n → fr !! k = Some row →
    ∃ delta, deltas r !! (k - a) = Some delta ∧
      delta + _frame_length self + _synthesis_hop self ≤ length row ∧
      _synthesis_frame (post r) !! k
      = Some (slice row delta (delta + _frame_length self)) ∧
      _natural_progression (post r) !! k
      = Some (slice row (delta + _synthesis_hop self)
                (delta + _synthesis_hop self + _frame_length self)).
Proof.
  revert a self. induction n as [|n IH]; intros a self Hinv Ha Hrows Hmode.
  { cbn. repeat split. intros; lia. }
  cbn [seq for_channels].
  destruct (Hrows a ltac:(lia)) as (row & Hrow & Hlen).
  destruct Hmode as [|Hmode]; [lia|].
  destruct (choose_delta_total self fr a row) as [delta Hd]; [done|lia|done..|].
  pose proof (choose_delta_bound self fr a row delta (proj2 Hinv) Hrow Hlen Hd).
  rewrite (convert_channel_ok self fr a row delta) by (done || lia).
  cbn [outcome post deltas].
  set (self1 := spec_channel self a row delta).
  destruct (IH (S a) self1) as (Hout & Hlen' & Hpost).
  { by apply spec_channel_invariant. }
  { cbn. lia. }
  { intros k Hk. apply Hrows. lia. }
  { by right. }
  destruct (for_channels_post (seq (S a) n) self1 fr) as (_ & _ & _ & Hother).
  split; [done|]. split; [cbn; lia|].
  intros k row' Hk Hrow'.
  destruct (decide (k = a)) as [->|Hne].
  - assert (row' = row) as -> by congruence.
    exists delta. rewrite Nat.sub_diag. split; [done|]. split; [done|].
    destruct (Hother a) as [-> ->].
    { rewrite elem_of_seq. lia. }
    destruct Hinv as [[Hl1 _] [Hl2 _]].
    cbn. by rewrite !list_lookup_insert_eq by lia.
  - destruct (Hpost k row' ltac:(lia) Hrow') as (d & Hd' & ? & ? & ?).
    exists d. replace (k - a) with (S (k - S a)) by lia. done.
Qed.

End LoopFacts.

(** ** convert_frame *)

Section ConvertFrameFacts.
Context {A : Type} `{Sample A}.
Implicit Types (self : t A) (fr : list (list A)) (row : list A).

Lemma convert_frame_deltas_eq self fr :
  deltas (convert_frame self fr)
  = deltas (for_channels (seq 0 (_channels self)) self fr).
Proof. unfold convert_frame. by destruct (outcome _). Qed.

(** Every recorded shift is the choice made for its channel on the state
    the call started from. *)
Lemma convert_frame_deltas self fr k delta :
  deltas (convert_frame self fr) !! k = Some delta →
  k < _channels self ∧ choose_delta self fr k = Ok delta.
Proof.
  rewrite convert_frame_deltas_eq.
  intros (k' & [-> ?]%lookup_seq & Hd)%for_channels_deltas; [|apply NoDup_seq].
  done.
Qed.

(** A call keeps the configuration and the shape of the buffers, whether
    it returns or raises. *)
Lemma convert_frame_post self fr :
  let r := convert_frame self fr in
  same_configuration (post r) self ∧ (invariant self → invariant (post r)).
Proof.
  destruct (for_channels_post (seq 0 (_channels self)) self fr)
    as (Hc & _ & Hinv & _).
  unfold convert_frame. destruct (outcome _); cbn; split; done.
Qed.

(** A frame with a row of at least [L + Hs] samples for every channel is
    accepted: the call returns, every channel has its shift, and the
    buffers hold the slices of steps 3 and 4 of the specification. *)
Lemma convert_frame_ok self fr :
  invariant self →
  (∀ k, k < _channels self → ∃ row, fr !! k = Some row ∧
     _frame_length self + _synthesis_hop self ≤ length row) →
  _channels self = 0 ∨ _first self = true ∨
    (1 ≤ _frame_length self ∧ 1 ≤ _synthesis_hop self) →
  let r := convert_frame self fr in
  outcome r = Ok (_synthesis_frame (post r)) ∧
  _first (post r) = false ∧
  length (deltas r) = _channels self ∧
  ∀ k row, k < _channels self → fr !! k = Some row →
    ∃ delta, deltas r !! k = Some delta ∧
      delta + _frame_length self + _synthesis_hop self ≤ length row ∧
      _synthesis_frame (post r) !! k
      = Some (slice row delta (delta + _frame_length self)) ∧
      _natural_progression (post r) !! k
      = Some (slice row (delta + _synthesis_hop self)
                (delta + _synthesis_hop self + _frame_length self)).
Proof.
  intros Hinv Hrows Hmode.
  destruct (for_channels_ok (_channels self) 0 self fr) as (Hout & Hlen & Hpost);
    [done|lia| |done|].
  { intros k Hk. apply Hrows. lia. }
  unfold convert_frame. cbv zeta. rewrite Hout. cbn.
  split; [done|]. split; [done|]. split; [done|].
  intros k row Hk Hrow.
  destruct (Hpost k row ltac:(lia) Hrow) as (delta & Hd & ?).
  rewrite Nat.sub_0_r in Hd. eauto.
Qed.

(** The rows of an extended frame are long enough for the two copies. *)
Lemma extended_frame_rows self fr k :
  extended_frame self fr → k < _channels self →
  ∃ row, fr !! k = Some row ∧
    length row = _frame_length self + _tolerance self + _synthesis_hop self.
Proof. intros Hfr Hk. by eapply has_shape_row. Qed.

Lemma extended_frame_long self fr :
  extended_frame self fr →
  ∀ k, k < _channels self → ∃ row, fr !! k = Some row ∧
    _frame_length self + _synthesis_hop self ≤ length row.
Proof.
  intros Hfr k Hk.
  destruct (extended_frame_rows self fr k Hfr Hk) as (row & Hrow & Hlen).
  exists row. split; [done|lia].
Qed.

(** After the first call, a converter whose frame length or synthesis hop
    is zero refuses every extended frame in its first channel, before any
    shift is chosen and without touching its state. *)
Lemma convert_frame_degenerate self fr :
  invariant self → extended_frame self fr → _first self = false →
  _frame_length self = 0 ∨ _synthesis_hop self = 0 →
  1 ≤ _channels self →
  convert_frame self fr = Run self [] (Raise ValueError).
Proof.
  intros [_ Hn] Hfr Hf Hzero Hch.
  destruct (extended_frame_rows self fr 0 Hfr Hch) as (row & Hrow & Hlen).
  destruct (has_shape_row _ _ _ 0 Hn Hch) as (v & Hv & Hlv).
  assert (choose_delta self fr 0 = Raise ValueError) as Hd.
  { unfold choose_delta, cross_correlation. rewrite Hf.
    rewrite (getitem_Some _ _ _ Hrow), (getitem_Some _ _ _ Hv). cbn.
    unfold np.correlate. rewrite length_slice_to_neg.
    repeat case_decide; repeat case_bool_decide; try done; lia. }
  unfold convert_frame.
  destruct (_channels self) as [|n]; [lia|]. cbn [seq for_channels].
  destruct (convert_channel_deltas self fr 0)
    as [(e & He & ->)|(d & Hd' & _)]; [|congruence].
  cbn. congruence.
Qed.

End ConvertFrameFacts.

(** ** Constructed and cleared converters *)

Section LifecycleFacts.
Context {A : Type} `{Sample A}.
Implicit Types (self : t A) (fr : list (list A)) (row : list A).

Lemma empty_has_shape (junk : nat → nat → A) rows cols :
  has_shape (np.empty junk rows cols) rows cols.
Proof.
  unfold np.empty. split; [by rewrite length_fmap, length_seq|].
  apply Forall_fmap, Forall_forall. intros i _. cbn.
  by rewrite length_fmap, length_seq.
Qed.

Lemma init_invariant (junk_s junk_n : nat → nat → A) channels frame_length
    synthesis_hop tolerance :
  invariant (__init__ junk_s junk_n channels frame_length synthesis_hop tolerance).
Proof. split; apply empty_has_shape. Qed.

Lemma clear_invariant self : invariant self → invariant (clear self).
Proof. by intros [??]. Qed.

Lemma fresh_invariant self : fresh self → invariant self.
Proof.
  intros [(?&?&?&?&?&?&->)|(self0&?&->)];
    [apply init_invariant|by apply clear_invariant].
Qed.

Lemma fresh_first self : fresh self → _first self = true.
Proof. by intros [(?&?&?&?&?&?&->)|(self0&?&->)]. Qed.

(** The four ways a call on an extended frame can go. *)
Lemma mode_cases self :
  (_channels self = 0 ∨ _first self = true ∨
     (1 ≤ _frame_length self ∧ 1 ≤ _synthesis_hop self))
  ∨ (_first self = false ∧
     (_frame_length self = 0 ∨ _synthesis_hop self = 0) ∧ 1 ≤ _channels self).
Proof. destruct (_first self); [by left; right; left|]. lia. Qed.

End LifecycleFacts.

(** * The claims *)

Section Lifecycle.
Context {A : Type} `{Sample A}.
Implicit Types (self : t A) (fr : list (list A)) (row : list A).

(** The first call on an extended frame: no shift, and the first L samples
    of every row come out. *)
Lemma first_call self fr :
  invariant self → _first self = true → extended_frame self fr →
  let r := convert_frame self fr in
  deltas r = replicate (_channels self) 0 ∧
  outcome r = Ok (take (_frame_length self) <$> fr) ∧
  _synthesis_frame (post r) = take (_frame_length self) <$> fr.
Proof.
  intros Hinv Hfirst Hfr.
  destruct (convert_frame_ok self fr) as (Hout & _ & Hlen & Hrows);
    [done|by apply extended_frame_long|by right; left|].
  destruct (convert_frame_post self fr) as ((Hch & _) & Hinv').
  destruct (Hinv' Hinv) as [[Hls _] _].
  assert (∀ k delta, deltas (convert_frame self fr) !! k = Some delta →
    delta = 0) as Hzero.
  { intros k delta [_ Hd]%convert_frame_deltas.
    rewrite choose_delta_first in Hd by done. congruence. }
  assert (_synthesis_frame (post (convert_frame self fr))
          = take (_frame_length self) <$> fr) as Hsynth.
  { apply list_eq. intros k. rewrite list_lookup_fmap.
    destruct (decide (k < _channels self)) as [Hk|Hk].
    - destruct (extended_frame_rows self fr k Hfr Hk) as (row & Hrow & _).
      destruct (Hrows k row Hk Hrow) as (delta & Hd & _ & -> & _).
      rewrite (Hzero _ _ Hd), Hrow. by rewrite slice_0.
    - destruct Hfr as [Hlfr _].
      rewrite !lookup_ge_None_2; [done|lia..]. }
  cbv zeta. rewrite Hout, Hsynth. split; [|done].
  apply list_eq. intros k.
  destruct (decide (k < _channels self)) as [Hk|Hk].
  - destruct (lookup_lt_is_Some_2 (deltas (convert_frame self fr)) k)
      as [delta Hd]; [lia|].
    rewrite Hd, (Hzero _ _ Hd). symmetry. by apply lookup_replicate_2.
  - rewrite !lookup_ge_None_2; [done|rewrite ?length_replicate; lia..].
Qed.

(** C3. On a converter just built or just cleared, the call on an extended
    frame returns, the shift is 0 in every channel, and the synthesis frame
    returned (and held in the buffer) is the first L samples of each row of
    the analysis frame, whatever the samples of the frame and the stale
    contents of the two buffers are. *)
Theorem first_frame_no_shift self fr :
  fresh self → extended_frame self fr →
  let r := convert_frame self fr in
  deltas r = replicate (_channels self) 0 ∧
  outcome r = Ok (take (_frame_length self) <$> fr) ∧
  _synthesis_frame (post r) = take (_frame_length self) <$> fr.
Proof.
  intros Hfresh Hfr.
  apply first_call; [by apply fresh_invariant|by apply fresh_first|done].
Qed.

(** C9. Clearing twice is clearing once; after either, whatever frame
    comes next, every shift chosen by [convert_frame] is 0, and on an
    extended frame the call returns with the shift 0 in every channel. *)
Theorem clear_idempotent self :
  clear (clear self) = clear self ∧
  (∀ fr, convert_frame (clear (clear self)) fr = convert_frame (clear self) fr) ∧
  (∀ fr k delta,
     deltas (convert_frame (clear self) fr) !! k = Some delta → delta = 0) ∧
  (∀ fr, invariant self → extended_frame self fr →
     deltas (convert_frame (clear self) fr) = replicate (_channels self) 0 ∧
     is_Ok (outcome (convert_frame (clear self) fr)) = true).
Proof.
  split; [done|]. split; [done|]. split.
  - intros fr k delta [_ Hd]%convert_frame_deltas.
    rewrite choose_delta_first in Hd by done. congruence.
  - intros fr Hinv Hfr.
    destruct (first_call (clear self) fr) as (Hd & Hout & _);
      [by apply clear_invariant|done..|].
    cbv zeta in Hout. rewrite Hout. done.
Qed.

(** C10. [clear] leaves the two buffers and the four configuration
    attributes as they are and sets the first-call flag; on a converter
    whose flag is already set it changes nothing at all. *)
Theorem clear_changes_only_first self :
  _synthesis_frame (clear self) = _synthesis_frame self ∧
  _natural_progression (clear self) = _natural_progression self ∧
  _channels (clear self) = _channels self ∧
  _frame_length (clear self) = _frame_length self ∧
  _synthesis_hop (clear self) = _synthesis_hop self ∧
  _tolerance (clear self) = _tolerance self ∧
  _first (clear self) = true ∧
  (_first self = true → clear self = self).
Proof.
  repeat split. destruct self as [??????[]]; [done|]. cbn. discriminate.
Qed.

End Lifecycle.

Section Streaming.
Context {A : Type} `{Sample A}.
Implicit Types (self : t A) (fr : list (list A)) (row : list A).

(** C4. After the first call, on an extended frame, every shift chosen
    satisfies [0 <= delta <= T], so the slice [row[delta : delta + L]]
    lies inside the row, has L samples, and is the synthesis frame of the
    channel after the call. When the frame length and the hop are positive
    a shift is chosen in every channel and the call returns. *)
Theorem shift_bound self fr :
  invariant self → extended_frame self fr → _first self = false →
  let r := convert_frame self fr in
  (∀ k delta, deltas r !! k = Some delta →
     0 ≤ delta ≤ _tolerance self ∧
     ∃ row, fr !! k = Some row ∧
       delta + _frame_length self ≤ length row ∧
       length (slice row delta (delta + _frame_length self))
       = _frame_length self ∧
       _synthesis_frame (post r) !! k
       = Some (slice row delta (delta + _frame_length self))) ∧
  (1 ≤ _frame_length self → 1 ≤ _synthesis_hop self →
     length (deltas r) = _channels self ∧ is_Ok (outcome r) = true).
Proof.
  intros Hinv Hfr Hfirst. cbv zeta. split.
  - intros k delta Hd.
    destruct (convert_frame_deltas self fr k delta Hd) as [Hk _].
    destruct (mode_cases self) as [Hmode|(_ & Hzero & Hch)].
    + destruct (convert_frame_ok self fr) as (_ & _ & _ & Hrows);
        [done|by apply extended_frame_long|done|].
      destruct (extended_frame_rows self fr k Hfr Hk) as (row & Hrow & Hlen).
      destruct (Hrows k row Hk Hrow) as (delta' & Hd' & Hbound & Hs & _).
      assert (delta' = delta) as -> by congruence.
      split; [lia|]. exists row. split; [done|]. split; [lia|].
      split; [|done]. rewrite length_slice_inside; lia.
    + by rewrite convert_frame_degenerate in Hd.
  - intros HL HHs.
    destruct (convert_frame_ok self fr) as (Hout & _ & Hlen & _);
      [done|by apply extended_frame_long|by right; right|].
    by rewrite Hout.
Qed.

(** C6. On an extended frame, first call or not: for every channel in
    which a shift [delta] was chosen, the natural progression after the call
    is [row[delta + Hs : delta + Hs + L]], and after the call the converter
    is not in first-call mode. *)
Theorem prediction_consistency self fr :
  invariant self → extended_frame self fr →
  let r := convert_frame self fr in
  _first (post r) = false ∧
  ∀ k delta, deltas r !! k = Some delta →
    ∃ row, fr !! k = Some row ∧
      _natural_progression (post r) !! k
      = Some (slice row (delta + _synthesis_hop self)
                (delta + _synthesis_hop self + _frame_length self)).
Proof.
  intros Hinv Hfr. cbv zeta.
  destruct (mode_cases self) as [Hmode|(Hfirst & Hzero & Hch)].
  - destruct (convert_frame_ok self fr) as (_ & Hf & _ & Hrows);
      [done|by apply extended_frame_long|done|].
    split; [done|]. intros k delta Hd.
    destruct (convert_frame_deltas self fr k delta Hd) as [Hk _].
    destruct (extended_frame_rows self fr k Hfr Hk) as (row & Hrow & Hlen).
    destruct (Hrows k row Hk Hrow) as (delta' & Hd' & _ & _ & Hn).
    assert (delta' = delta) as -> by congruence. eauto.
  - rewrite convert_frame_degenerate by done. cbn. done.
Qed.

(** C8. Two calls whose converters have the same configuration and
    first-call flag, on extended frames: if the frames agree on row [k] and
    the converters agree on row [k] of their buffers, then the calls choose
    the same shift for channel [k], leave the same synthesis frame and the
    same natural progression in channel [k], and end the same way, with the
    same row [k] in the returned arrays. The other rows are unconstrained. *)
Theorem channel_independence self1 self2 fr1 fr2 k :
  invariant self1 → invariant self2 →
  same_configuration self1 self2 → _first self1 = _first self2 →
  extended_frame self1 fr1 → extended_frame self2 fr2 →
  fr1 !! k = fr2 !! k →
  _synthesis_frame self1 !! k = _synthesis_frame self2 !! k →
  _natural_progression self1 !! k = _natural_progression self2 !! k →
  let r1 := convert_frame self1 fr1 in
  let r2 := convert_frame self2 fr2 in
  deltas r1 !! k = deltas r2 !! k ∧
  _synthesis_frame (post r1) !! k = _synthesis_frame (post r2) !! k ∧
  _natural_progression (post r1) !! k = _natural_progression (post r2) !! k ∧
  match outcome r1, outcome r2 with
  | Ok out1, Ok out2 => out1 !! k = out2 !! k
  | Raise e1, Raise e2 => e1 = e2
  | _, _ => False
  end.
Proof.
  intros Hinv1 Hinv2 (Hch & HL & HHs & HT) Hf Hfr1 Hfr2 Hrow Hs Hn. cbv zeta.
  destruct (mode_cases self1) as [Hmode|(Hfirst & Hzero & Hch1)].
  - destruct (convert_frame_ok self1 fr1) as (Hout1 & _ & Hlen1 & Hrows1);
      [done|by apply extended_frame_long|done|].
    destruct (convert_frame_ok self2 fr2) as (Hout2 & _ & Hlen2 & Hrows2);
      [done|by apply extended_frame_long|by rewrite <-Hch, <-HL, <-HHs, <-Hf|].
    rewrite Hout1, Hout2.
    destruct (decide (k < _channels self1)) as [Hk|Hk].
    + destruct (extended_frame_rows self1 fr1 k Hfr1 Hk) as (row & Hrow1 & _).
      destruct (Hrows1 k row Hk Hrow1) as (d1 & Hd1 & _ & Hs1 & Hn1).
      destruct (Hrows2 k row) as (d2 & Hd2 & _ & Hs2 & Hn2);
        [lia|congruence|].
      assert (d1 = d2) as ->.
      { apply convert_frame_deltas in Hd1 as [_ Hd1].
        apply convert_frame_deltas in Hd2 as [_ Hd2].
        rewrite (choose_delta_ext self1 self2 fr1 fr2 k) in Hd1 by done.
        congruence. }
      rewrite Hd1, Hd2, Hs1, Hs2, Hn1, Hn2, HL, HHs. done.
    + destruct (convert_frame_post self1 fr1) as ((Hc1 & _) & Hi1).
      destruct (convert_frame_post self2 fr2) as ((Hc2 & _) & Hi2).
      destruct (Hi1 Hinv1) as [[Hls1 _] [Hln1 _]].
      destruct (Hi2 Hinv2) as [[Hls2 _] [Hln2 _]].
      rewrite !lookup_ge_None_2; [done|lia..].
  - rewrite (convert_frame_degenerate self1 fr1) by done.
    rewrite (convert_frame_degenerate self2 fr2)
      by (done || congruence || lia).
    done.
Qed.

End Streaming.

Section Search.
Context {A : Type} `{SampleOrder A}.
Implicit Types (self : t A) (fr : list (list A)) (row v : list A).

Lemma slice_take_inside row m i n :
  i + n ≤ m → slice (take m row) i (i + n) = slice row i (i + n).
Proof.
  intros. unfold slice. replace (i + n - i) with n by lia.
  rewrite !take_drop_commute, take_take. do 2 f_equal. lia.
Qed.

(** C1, amended. After the first call, on an extended frame, with a frame
    length and a synthesis hop of at least one sample: for each channel the
    scores are the valid-overlap correlation of the first [L + T] samples of
    the row (the row without its last [Hs] samples) with the natural
    progression of the channel; there are exactly [T + 1] of them, the score
    of index [i] being the dot product of [row[i : i + L]] with the natural
    progression; and the shift chosen for the channel is the index of a
    score that no other score exceeds. *)
Theorem shift_search self fr k row v :
  invariant self → extended_frame self fr → _first self = false →
  1 ≤ _frame_length self → 1 ≤ _synthesis_hop self →
  fr !! k = Some row → _natural_progression self !! k = Some v →
  ∃ scores delta m,
    slice_to_neg row (_synthesis_hop self)
    = take (_frame_length self + _tolerance self) row ∧
    cross_correlation self fr k = Ok scores ∧
    scores
    = np.correlate_valid (take (_frame_length self + _tolerance self) row) v ∧
    length scores = _tolerance self + 1 ∧
    (∀ i, i ≤ _tolerance self →
       scores !! i = Some (np.dot (slice row i (i + _frame_length self)) v)) ∧
    deltas (convert_frame self fr) !! k = Some delta ∧
    scores !! delta = Some m ∧
    (∀ j x, scores !! j = Some x → sample_le x m = true).
Proof.
  intros Hinv Hfr Hfirst HL HHs Hrow Hv.
  destruct (has_shape_lookup _ _ _ _ _ Hfr Hrow) as [Hk Hlen].
  destruct (has_shape_lookup _ _ _ _ _ (proj2 Hinv) Hv) as [_ Hlv].
  pose proof (cross_correlation_valid self fr k row v Hrow Hv Hlv HL HHs
                ltac:(lia)) as Hcc.
  replace (length row - _synthesis_hop self)
    with (_frame_length self + _tolerance self) in Hcc by lia.
  destruct (convert_frame_ok self fr) as (_ & _ & _ & Hrows);
    [done|by apply extended_frame_long|by right; right|].
  destruct (Hrows k row Hk Hrow) as (delta & Hd & _).
  destruct (convert_frame_deltas self fr k delta Hd) as [_ Hchoice].
  apply choose_delta_Ok_inv in Hchoice as (scores & Hcc' & Hmax); [|done].
  rewrite Hcc in Hcc'. injection Hcc' as <-.
  destruct (argmax_first_max _ _ Hmax) as (m & Hm & Hle & _).
  eexists _, delta, m. split.
  { rewrite slice_to_neg_take by done. f_equal. lia. }
  split; [done|]. split; [done|]. split.
  { rewrite length_correlate_valid, length_take. lia. }
  split; [|done].
  intros i Hi. rewrite lookup_correlate_valid by (rewrite length_take; lia).
  by rewrite Hlv, slice_take_inside by lia.
Qed.

(** C5. After the first call, whatever the frame: when a shift is chosen
    for a channel, it is the index of a maximal score of that channel, and
    every index whose score is also maximal is at least as large (the first
    occurrence of the maximum is taken). In particular, when the scores of
    indices 2 and 5 are equal and maximal and those of indices 0 and 1 are
    smaller, the shift is 2. *)
Theorem tie_break_smallest_index self fr k delta :
  _first self = false →
  deltas (convert_frame self fr) !! k = Some delta →
  ∃ scores m,
    cross_correlation self fr k = Ok scores ∧
    scores !! delta = Some m ∧
    (∀ j x, scores !! j = Some x → sample_le x m = true) ∧
    (∀ j x, scores !! j = Some x → sample_le m x = true → delta ≤ j) ∧
    (∀ x, scores !! 2 = Some x → scores !! 5 = Some x →
       (∀ j y, scores !! j = Some y → sample_le y x = true) →
       (∀ j y, j < 2 → scores !! j = Some y → sample_le x y = false) →
       delta = 2).
Proof.
  intros Hfirst [_ Hchoice]%convert_frame_deltas.
  apply choose_delta_Ok_inv in Hchoice as (scores & Hcc & Hmax); [|done].
  destruct (argmax_first_max _ _ Hmax) as (m & Hfm).
  pose proof Hfm as (Hm & Hle & Hbefore).
  exists scores, m. split; [done|]. split; [done|]. split; [done|]. split.
  - intros j x Hj Hmx. destruct (decide (delta ≤ j)) as [|Hlt]; [done|].
    rewrite (Hbefore j x) in Hmx by (done || lia). done.
  - intros x H2 _ Hmaximal Hsmaller.
    by apply (first_max_index scores delta 2 m x).
Qed.

End Search.

Section FrameLength.
Context {A : Type} `{Sample A}.
Implicit Types (self : t A) (fr : list (list A)) (row : list A).

(** C2, amended. [convert_frame] does not compare the length [N] of the
    rows with [L + T + Hs]. Rows of at least [L + Hs] samples are accepted
    whatever [N] is (on a first call, or when [L >= 1] and [Hs >= 1]): the
    call returns with a shift for every channel. Rows of fewer than
    [L + Hs] samples (with a channel to process and [L >= 1]) are refused
    by the copies, except when the shift chosen in channel 0 leaves exactly
    one sample for the natural progression, [N = delta + Hs + 1], which
    [np.copyto] repeats to fill the row. *)
Theorem frame_length_unchecked self fr N :
  invariant self → has_shape fr (_channels self) N →
  let r := convert_frame self fr in
  (_frame_length self + _synthesis_hop self ≤ N →
   _first self = true ∨ (1 ≤ _frame_length self ∧ 1 ≤ _synthesis_hop self) →
   is_Ok (outcome r) = true ∧ length (deltas r) = _channels self) ∧
  (N < _frame_length self + _synthesis_hop self →
   1 ≤ _channels self → 1 ≤ _frame_length self →
   is_Ok (outcome r) = true →
   ∃ delta, deltas r !! 0 = Some delta ∧ N = delta + _synthesis_hop self + 1).
Proof.
  intros Hinv Hfr. cbv zeta. split.
  - intros HN Hmode.
    destruct (convert_frame_ok self fr) as (Hout & _ & Hlen & _);
      [done| |by right|by rewrite Hout].
    intros k Hk. destruct (has_shape_row _ _ _ k Hfr Hk) as (row & ? & ?).
    exists row. split; [done|lia].
  - intros HN Hch HL. unfold convert_frame.
    destruct (_channels self) as [|n] eqn:Hchannels; [lia|].
    cbn [seq for_channels].
    destruct (outcome (convert_channel self fr 0)) as [[]|e] eqn:Hout0.
    + apply convert_channel_Ok_inv in Hout0
        as (delta & row & dst & new & _ & Hds & Hrow & Hdst & Hcopy).
      intros _. exists delta. split.
      { destruct (outcome _); cbn; by rewrite Hds. }
      destruct (has_shape_lookup _ _ _ _ _ Hfr Hrow) as [_ Hlrow].
      destruct (has_shape_lookup _ _ _ _ _ (proj2 Hinv) Hdst) as [_ Hldst].
      apply copyto_Ok_inv in Hcopy. rewrite length_slice in Hcopy. lia.
    + rewrite Hout0. cbn. done.
Qed.

End FrameLength.

(** ** The parameter deriver *)

Section Deriver.
Context {A : Type} `{Sample A} {window : Type} (hanning : nat → window).
Import audiotsm.

(** On a float that is not below zero, dropping the fractional part and
    taking the floor give the same integer, and fail alike. *)
Lemma int_of_float_floor (x : float) :
  PrimFloat.leb 0 x = true → int_of_float x = floor_of_float x.
Proof.
  rewrite leb_spec. unfold int_of_float, floor_of_float.
  replace (Prim2SF 0) with (S754_zero false) by (by vm_compute).
  by destruct (Prim2SF x) as [| | |[] m e].
Qed.

(** C7, amended. [wsola] resolves Hs to [synthesis_hop] if given, else
    [frame_length // 2]; T to [tolerance] if given, else
    [frame_length // 2]; hands the last argument [T + Hs] to the framework;
    and resolves Ha to [analysis_hop] if given, whatever the speed. With no
    [analysis_hop] given, Ha is [int(Hs * speed)], the float product with
    its fractional part dropped, which is the floor of the product when the
    product is not below zero; the call raises when the product is NaN or
    infinite. *)
Theorem wsola_resolution (junk_s junk_n : nat → nat → A)
    (channels frame_length : nat) (synthesis_hop tolerance : option nat) :
  let Hs := default (Nat.div frame_length 2) synthesis_hop in
  let T := default (Nat.div frame_length 2) tolerance in
  let tsm Ha :=
    TSM (__init__ junk_s junk_n channels frame_length Hs T)
      channels frame_length Ha Hs None (hanning frame_length) T (T + Hs) in
  (∀ speed Ha,
     wsola hanning junk_s junk_n channels speed frame_length (Some Ha)
       synthesis_hop tolerance = Ok (tsm Ha)) ∧
  (∀ speed,
     wsola hanning junk_s junk_n channels speed frame_length None
       synthesis_hop tolerance
     = (x ← int_mul_float (Z.of_nat Hs) speed; Ha ← int_of_float x;
        mret (tsm Ha))) ∧
  (∀ speed x,
     int_mul_float (Z.of_nat Hs) speed = Ok x → PrimFloat.leb 0 x = true →
     wsola hanning junk_s junk_n channels speed frame_length None
       synthesis_hop tolerance
     = (Ha ← spec_analysis_hop None Hs speed; mret (tsm Ha))).
Proof.
  cbv zeta. unfold wsola, spec_analysis_hop. split; [|split].
  - intros speed Ha. by destruct synthesis_hop, tolerance.
  - intros speed. destruct synthesis_hop, tolerance; cbn;
      by destruct (int_mul_float _ speed) as [x|]; cbn;
         [destruct (int_of_float x)|].
  - intros speed x Hx Hpos.
    destruct synthesis_hop, tolerance; cbn in *;
      by rewrite Hx; cbn; rewrite int_of_float_floor.
Qed.

End Deriver.

(** * The claims on concrete converters *)

Import Examples.

#[global] Instance Z_sample_order : SampleOrder Z.
Proof.
  split; cbn.
  - intros x y. destruct (Z.leb_spec x y); [by left|right].
    apply Z.leb_le. lia.
  - intros x y z ?%Z.leb_le ?%Z.leb_le. apply Z.leb_le. lia.
Qed.

Ltac shape := vm_compute; repeat split; repeat constructor.

(** C1: with a synthesis hop of zero (what [wsola(frame_length=1)]
    resolves to) the second call of a stream gets an extended frame and
    computes no score at all: [row[:-0]] is empty and [np.correlate]
    refuses it. With a frame length of zero the natural progression is
    empty, and refused as well. *)
Lemma shift_search_zero_hop :
  invariant zero_hop_streaming ∧
  extended_frame zero_hop_streaming zero_hop_frame ∧
  _first zero_hop_streaming = false ∧
  slice_to_neg [3%Z] (_synthesis_hop zero_hop_streaming) = [] ∧
  cross_correlation zero_hop_streaming zero_hop_frame 0 = Raise ValueError ∧
  deltas (convert_frame zero_hop_streaming zero_hop_frame) = [] ∧
  outcome (convert_frame zero_hop_streaming zero_hop_frame) = Raise ValueError ∧
  invariant zero_length_converter ∧
  extended_frame zero_length_converter zero_length_frame ∧
  cross_correlation zero_length_converter zero_length_frame 0
  = Raise ValueError.
Proof.
  split; [shape|]. split; [shape|]. do 5 (split; [by vm_compute|]).
  split; [shape|]. split; [shape|]. by vm_compute.
Qed.

Lemma shift_search_witness :
  deltas (convert_frame tie_converter tie_frame) = [2] ∧
  ∃ scores delta m,
    slice_to_neg [0; 1; 3; 2; 1; 3; 9]%Z 1 = take (1 + 5) [0; 1; 3; 2; 1; 3; 9]%Z ∧
    cross_correlation tie_converter tie_frame 0 = Ok scores ∧
    scores = np.correlate_valid (take (1 + 5) [0; 1; 3; 2; 1; 3; 9]%Z) [1%Z] ∧
    length scores = 5 + 1 ∧
    (∀ i, i ≤ 5 →
       scores !! i
       = Some (np.dot (slice [0; 1; 3; 2; 1; 3; 9]%Z i (i + 1)) [1%Z])) ∧
    deltas (convert_frame tie_converter tie_frame) !! 0 = Some delta ∧
    scores !! delta = Some m ∧
    (∀ j x, scores !! j = Some x → sample_le x m = true).
Proof.
  split; [by vm_compute|].
  apply (shift_search tie_converter tie_frame 0);
    [shape|shape|reflexivity|cbn; lia|cbn; lia|reflexivity|reflexivity].
Defined.

(** C2: a frame of 4 samples where 3 are expected is accepted, on the
    first call and later, where the extra sample adds a candidate shift
    beyond the tolerance; a frame of 2 samples is accepted too, its last
    sample repeated to fill the natural progression. *)
Lemma frame_length_unchecked_counterexample :
  _frame_length small_converter + _tolerance small_converter
    + _synthesis_hop small_converter = 3 ∧
  has_shape long_frame 1 4 ∧
  outcome (convert_frame small_converter long_frame) = Ok [[1; 2]%Z] ∧
  _tolerance small_streaming = 0 ∧
  deltas (convert_frame small_streaming [[1; 2; 9; 4]%Z]) = [1] ∧
  outcome (convert_frame small_streaming [[1; 2; 9; 4]%Z]) = Ok [[2; 9]%Z] ∧
  has_shape short_frame 1 2 ∧
  outcome (convert_frame small_converter short_frame) = Ok [[5; 7]%Z] ∧
  _natural_progression (post (convert_frame small_converter short_frame))
  = [[7; 7]%Z].
Proof.
  split; [done|]. split; [shape|]. split; [by vm_compute|].
  split; [done|]. split; [by vm_compute|]. split; [by vm_compute|].
  split; [shape|]. by vm_compute.
Qed.

Lemma frame_length_unchecked_witness :
  (2 + 1 ≤ 4 → true = true ∨ (1 ≤ 2 ∧ 1 ≤ 1) →
   is_Ok (outcome (convert_frame small_converter long_frame)) = true ∧
   length (deltas (convert_frame small_converter long_frame)) = 1) ∧
  (4 < 2 + 1 → 1 ≤ 1 → 1 ≤ 2 →
   is_Ok (outcome (convert_frame small_converter long_frame)) = true →
   ∃ delta, deltas (convert_frame small_converter long_frame) !! 0 = Some delta
     ∧ 4 = delta + 1 + 1).
Proof.
  apply (frame_length_unchecked small_converter long_frame 4); shape.
Defined.

(** C3 on a cleared stereo converter with stale buffers. *)
Lemma first_frame_no_shift_witness :
  fresh (clear stereo_converter) ∧
  extended_frame (clear stereo_converter) stereo_frame ∧
  deltas (convert_frame (clear stereo_converter) stereo_frame) = [0; 0] ∧
  outcome (convert_frame (clear stereo_converter) stereo_frame)
  = Ok [[1; 2]; [4; 3]]%Z ∧
  _synthesis_frame (post (convert_frame (clear stereo_converter) stereo_frame))
  = [[1; 2]; [4; 3]]%Z.
Proof.
  assert (fresh (clear stereo_converter)) as Hfresh.
  { right. exists stereo_converter. split; [shape|reflexivity]. }
  assert (extended_frame (clear stereo_converter) stereo_frame) as Hfr by shape.
  split; [done|]. split; [done|].
  exact (first_frame_no_shift (clear stereo_converter) stereo_frame Hfresh Hfr).
Defined.

(** C4 on the stereo converter: the shifts are 1 and 0, and T = 1. *)
Lemma shift_bound_witness :
  deltas (convert_frame stereo_converter stereo_frame) = [1; 0] ∧
  (∀ k delta,
     deltas (convert_frame stereo_converter stereo_frame) !! k = Some delta →
     0 ≤ delta ≤ 1 ∧
     ∃ row, stereo_frame !! k = Some row ∧
       delta + 2 ≤ length row ∧
       length (slice row delta (delta + 2)) = 2 ∧
       _synthesis_frame (post (convert_frame stereo_converter stereo_frame)) !! k
       = Some (slice row delta (delta + 2))) ∧
  (1 ≤ 2 → 1 ≤ 1 →
     length (deltas (convert_frame stereo_converter stereo_frame)) = 2 ∧
     is_Ok (outcome (convert_frame stereo_converter stereo_frame)) = true).
Proof.
  split; [by vm_compute|].
  apply (shift_bound stereo_converter stereo_frame); [shape|shape|reflexivity].
Defined.

(** C5 on a frame whose scores are 0, 1, 3, 2, 1, 3: indices 2 and 5 tie
    for the maximum and the shift is 2. *)
Lemma tie_break_witness :
  cross_correlation tie_converter tie_frame 0 = Ok [0; 1; 3; 2; 1; 3]%Z ∧
  deltas (convert_frame tie_converter tie_frame) !! 0 = Some 2 ∧
  ∃ scores m,
    cross_correlation tie_converter tie_frame 0 = Ok scores ∧
    scores !! 2 = Some m ∧
    (∀ j x, scores !! j = Some x → sample_le x m = true) ∧
    (∀ j x, scores !! j = Some x → sample_le m x = true → 2 ≤ j) ∧
    (∀ x, scores !! 2 = Some x → scores !! 5 = Some x →
       (∀ j y, scores !! j = Some y → sample_le y x = true) →
       (∀ j y, j < 2 → scores !! j = Some y → sample_le x y = false) →
       2 = 2).
Proof.
  split; [by vm_compute|]. split; [by vm_compute|].
  apply (tie_break_smallest_index tie_converter tie_frame 0 2); reflexivity.
Defined.

(** C6 on the stereo converter. *)
Lemma prediction_consistency_witness :
  _natural_progression (post (convert_frame stereo_converter stereo_frame))
  = [[3; 4]; [3; 2]]%Z ∧
  _first (post (convert_frame stereo_converter stereo_frame)) = false ∧
  ∀ k delta,
    deltas (convert_frame stereo_converter stereo_frame) !! k = Some delta →
    ∃ row, stereo_frame !! k = Some row ∧
      _natural_progression (post (convert_frame stereo_converter stereo_frame))
        !! k
      = Some (slice row (delta + 1) (delta + 1 + 2)).
Proof.
  split; [by vm_compute|].
  apply (prediction_consistency stereo_converter stereo_frame); shape.
Defined.

(** C8: two stereo frames with the same channel 0 and unrelated channels
    1; the shift of channel 1 differs, channel 0 is the same. *)
Lemma channel_independence_witness :
  deltas (convert_frame stereo_converter stereo_frame) = [1; 0] ∧
  deltas (convert_frame stereo_converter stereo_frame') = [1; 1] ∧
  deltas (convert_frame stereo_converter stereo_frame) !! 0
  = deltas (convert_frame stereo_converter stereo_frame') !! 0 ∧
  _synthesis_frame (post (convert_frame stereo_converter stereo_frame)) !! 0
  = _synthesis_frame (post (convert_frame stereo_converter stereo_frame')) !! 0 ∧
  _natural_progression (post (convert_frame stereo_converter stereo_frame)) !! 0
  = _natural_progression (post (convert_frame stereo_converter stereo_frame'))
      !! 0 ∧
  match outcome (convert_frame stereo_converter stereo_frame),
        outcome (convert_frame stereo_converter stereo_frame') with
  | Ok out1, Ok out2 => out1 !! 0 = out2 !! 0
  | Raise e1, Raise e2 => e1 = e2
  | _, _ => False
  end.
Proof.
  split; [by vm_compute|]. split; [by vm_compute|].
  apply (channel_independence stereo_converter stereo_converter
           stereo_frame stereo_frame' 0); try reflexivity; shape.
Defined.

(** C7: with a speed of -0.5 and Hs = 1 the product is -0.5; [int] gives
    0, the floor is -1. *)
Lemma wsola_negative_speed :
  audiotsm.tsm_synthesis_hop <$>
    audiotsm.wsola no_window junk junk 1 (-0.5)%float 2 None None None = Ok 1 ∧
  audiotsm.tsm_analysis_hop <$>
    audiotsm.wsola no_window junk junk 1 (-0.5)%float 2 None None None
  = Ok 0%Z ∧
  audiotsm.spec_analysis_hop None 1 (-0.5)%float = Ok (-1)%Z.
Proof. by vm_compute. Qed.

(** C9 on the stereo converter. *)
Lemma clear_idempotent_witness :
  clear (clear stereo_converter) = clear stereo_converter ∧
  deltas (convert_frame (clear (clear stereo_converter)) stereo_frame) = [0; 0] ∧
  deltas (convert_frame (clear stereo_converter) stereo_frame) = [0; 0] ∧
  is_Ok (outcome (convert_frame (clear stereo_converter) stereo_frame)) = true.
Proof.
  destruct (clear_idempotent stereo_converter) as (Hcc & Hsame & _ & Hext).
  split; [exact Hcc|]. rewrite Hsame.
  destruct (Hext stereo_frame) as [Hd Hok]; [shape..|].
  split; [exact Hd|]. split; [exact Hd|exact Hok].
Defined.

(** C7 at the speed 1.5 with a frame length of 4: Hs = T = 2, the product
    is 3.0, Ha = 3 and the padding is 4. *)
Lemma wsola_resolution_witness :
  int_mul_float 2 (1.5)%float = Ok (3)%float ∧
  PrimFloat.leb 0 3 = true ∧
  audiotsm.tsm_analysis_hop <$>
    audiotsm.wsola no_window junk junk 2 (1.5)%float 4 None None None
  = Ok 3%Z ∧
  audiotsm.tsm_padding <$>
    audiotsm.wsola no_window junk junk 2 (1.5)%float 4 None None None
  = Ok 4.
Proof.
  assert (int_mul_float 2 (1.5)%float = Ok (3)%float) as Hx by (by vm_compute).
  assert (PrimFloat.leb 0 3 = true) as Hpos by (by vm_compute).
  split; [exact Hx|]. split; [exact Hpos|].
  destruct (wsola_resolution no_window junk junk 2 4 None None) as (_ & _ & H3).
  rewrite (H3 (1.5)%float (3)%float Hx Hpos). by vm_compute.
Defined.

(** * Further properties of the module *)

(** ** What a call reads, keeps and leaves behind *)

Section CallFacts.
Context {A : Type} `{Sample A}.
Implicit Types (self : t A) (fr : list (list A)) (row : list A).

Ltac case_inner :=
  match goal with
  | |- context [match ?x with _ => _ end] =>
      lazymatch x with
      | context [match _ with _ => _ end] => fail
      | _ => destruct x eqn:?; cbn [post deltas outcome]
      end
  end.

Ltac unfold_call :=
  unfold convert_channel, copyto_synthesis_frame, copyto_natural_progression,
    frame_slice, choose_delta, cross_correlation, getitem,
    mbind, mret, res_bind, res_ret.

Lemma convert_channel_frame_ext self fr1 fr2 k :
  fr1 !! k = fr2 !! k → convert_channel self fr1 k = convert_channel self fr2 k.
Proof. intros Hrow. unfold_call. by rewrite Hrow. Qed.

Lemma for_channels_frame_ext ks self fr1 fr2 :
  (∀ k, k ∈ ks → fr1 !! k = fr2 !! k) →
  for_channels ks self fr1 = for_channels ks self fr2.
Proof.
  revert self. induction ks as [|k ks IH]; intros self Hrows; [done|].
  cbn. rewrite (convert_channel_frame_ext self fr1 fr2 k)
    by (apply Hrows; left).
  destruct (outcome _); [|done].
  rewrite IH; [done|]. intros k' Hk'. apply Hrows. by right.
Qed.

(** X3. A call reads the rows of the analysis frame whose index is a
    channel number and no other: the rows beyond the channel count can be
    removed without changing anything of the call. *)
Theorem extra_rows_ignored self fr :
  convert_frame self fr = convert_frame self (take (_channels self) fr).
Proof.
  unfold convert_frame.
  rewrite (for_channels_frame_ext _ self fr (take (_channels self) fr));
    [done|].
  intros k [_ Hk]%elem_of_seq. by rewrite lookup_take_lt by lia.
Qed.

Lemma for_channels_returns ks self fr :
  outcome (for_channels ks self fr) = Ok () →
  length (deltas (for_channels ks self fr)) = length ks.
Proof.
  revert self. induction ks as [|k ks IH]; intros self; [done|]. cbn.
  destruct (convert_channel_deltas self fr k)
    as [(e & _ & ->)|(d & _ & Hds)]; [done|].
  destruct (outcome (convert_channel self fr k)) eqn:Hout; cbn.
  - intros Hok. rewrite Hds. cbn. by rewrite IH.
  - by rewrite Hout.
Qed.

(** X1. Whatever the frame, malformed or not, and whether the call returns
    or raises, a call keeps the four configuration attributes and the shape
    (channels, frame_length) of the two buffers. When it returns, the array
    returned is the buffer [_synthesis_frame], of shape (channels,
    frame_length), there is one shift per channel and the converter has left
    first-call mode. *)
Theorem call_keeps_shape self fr :
  invariant self →
  let r := convert_frame self fr in
  same_configuration (post r) self ∧ invariant (post r) ∧
  ∀ out, outcome r = Ok out →
    out = _synthesis_frame (post r) ∧
    has_shape out (_channels self) (_frame_length self) ∧
    length (deltas r) = _channels self ∧
    _first (post r) = false.
Proof.
  intros Hinv. cbv zeta.
  destruct (for_channels_post (seq 0 (_channels self)) self fr)
    as ((Hch & HL & HHs & HT) & _ & Hinv' & _).
  specialize (Hinv' Hinv).
  pose proof (for_channels_returns (seq 0 (_channels self)) self fr) as Hlen.
  unfold convert_frame.
  destruct (outcome (for_channels _ self fr)) as [[]|e]; cbn.
  - split; [done|]. split; [done|]. intros out [= <-].
    destruct Hinv' as [Hs _]. rewrite Hch, HL in Hs.
    rewrite Hlen, length_seq by done. done.
  - split; [done|]. split; [done|]. intros out [=].
Qed.

Lemma convert_channel_raises self fr k e :
  outcome (convert_channel self fr k) = Raise e →
  _first (post (convert_channel self fr k)) = _first self ∧
  (e = IndexError ∨ e = ValueError).
Proof.
  unfold_call. unfold np.correlate, np.argmax, np.copyto.
  repeat case_inner; try done; simplify_eq/=; intros [= <-]; auto.
Qed.

Lemma for_channels_raises ks self fr e :
  outcome (for_channels ks self fr) = Raise e →
  e = IndexError ∨ e = ValueError.
Proof.
  revert self. induction ks as [|k ks IH]; intros self; [done|]. cbn.
  destruct (outcome (convert_channel self fr k)) eqn:Hout; cbn.
  - apply IH.
  - rewrite Hout. intros [= <-]. by eapply convert_channel_raises.
Qed.

Lemma for_channels_unreached n a self fr j :
  a + length (deltas (for_channels (seq a n) self fr)) ≤ j →
  _synthesis_frame (post (for_channels (seq a n) self fr)) !! j
  = _synthesis_frame self !! j ∧
  _natural_progression (post (for_channels (seq a n) self fr)) !! j
  = _natural_progression self !! j.
Proof.
  revert a self. induction n as [|n IH]; intros a self; [done|].
  cbn [seq for_channels].
  destruct (convert_channel_post self fr a) as (_ & _ & Hrows).
  destruct (convert_channel_deltas self fr a)
    as [(e & _ & ->)|(d & _ & Hds)]; [done|].
  destruct (outcome (convert_channel self fr a)); cbn; rewrite Hds.
  - rewrite length_app. cbn. intros Hj.
    destruct (IH (S a) (post (convert_channel self fr a))) as [-> ->]; [lia|].
    apply Hrows. lia.
  - cbn. intros Hj. apply Hrows. lia.
Qed.

(** X2. A call that raises leaves the first-call flag as it was (a failed
    first call can be tried again as a first call), raises IndexError or
    ValueError and nothing else, and has not touched the rows of the
    channels it did not reach: with [n] shifts chosen before the exception,
    rows [n] and beyond of both buffers are unchanged. The rows before may
    already hold the slices of the frame that was refused. *)
Theorem raise_leaves_flag self fr e :
  outcome (convert_frame self fr) = Raise e →
  let r := convert_frame self fr in
  _first (post r) = _first self ∧
  (e = IndexError ∨ e = ValueError) ∧
  ∀ j, length (deltas r) ≤ j →
    _synthesis_frame (post r) !! j = _synthesis_frame self !! j ∧
    _natural_progression (post r) !! j = _natural_progression self !! j.
Proof.
  cbv zeta. unfold convert_frame.
  destruct (for_channels_post (seq 0 (_channels self)) self fr)
    as (_ & Hf & _ & _).
  pose proof (for_channels_raises (seq 0 (_channels self)) self fr) as He.
  pose proof (for_channels_unreached (_channels self) 0 self fr) as Hrows.
  destruct (outcome (for_channels _ self fr)) as [[]|e']; cbn; [done|].
  intros [= <-]. split; [done|]. split; [by apply He|].
  intros j Hj. apply Hrows. lia.
Qed.

Lemma for_channels_app ks1 ks2 self fr :
  for_channels (ks1 ++ ks2) self fr
  = match outcome (for_channels ks1 self fr) with
    | Raise e => for_channels ks1 self fr
    | Ok _ =>
        let r2 := for_channels ks2 (post (for_channels ks1 self fr)) fr in
        Run (post r2) (deltas (for_channels ks1 self fr) ++ deltas r2)
          (outcome r2)
    end.
Proof.
  revert self. induction ks1 as [|k ks1 IH]; intros self; cbn.
  { by destruct (for_channels ks2 self fr). }
  destruct (outcome (convert_channel self fr k)) eqn:Hout; cbn;
    [|by rewrite Hout].
  rewrite IH. destruct (outcome (for_channels ks1 _ fr)) eqn:Hout1; cbn.
  - by rewrite app_assoc.
  - by rewrite Hout1.
Qed.

Lemma convert_channel_missing self fr k :
  fr !! k = None →
  outcome (convert_channel self fr k) = Raise IndexError ∧
  post (convert_channel self fr k) = self.
Proof. intros Hnone. unfold_call. rewrite Hnone. by destruct (_first self). Qed.

Lemma convert_channel_IndexError self fr k :
  invariant self → k < _channels self →
  outcome (convert_channel self fr k) = Raise IndexError → fr !! k = None.
Proof.
  intros [Hs Hn] Hk. destruct (fr !! k) as [row|] eqn:Hrow; [|done].
  destruct (has_shape_row _ _ _ k Hs Hk) as (dst1 & Hdst1 & _).
  destruct (has_shape_row _ _ _ k Hn Hk) as (dst2 & Hdst2 & _).
  unfold_call. unfold np.correlate, np.argmax, np.copyto.
  rewrite Hrow, Hdst1, Hdst2.
  repeat case_inner; try done; simplify_eq/=; try done;
    rewrite ?Hdst2; repeat case_inner; done.
Qed.

Lemma for_channels_IndexError ks self fr :
  invariant self → (∀ k, k ∈ ks → k < _channels self) →
  outcome (for_channels ks self fr) = Raise IndexError →
  ∃ k, k ∈ ks ∧ fr !! k = None.
Proof.
  revert self. induction ks as [|k ks IH]; intros self Hinv Hks; [done|]. cbn.
  destruct (convert_channel_post self fr k) as ((Hch & _) & _).
  pose proof (convert_channel_invariant self fr k Hinv) as Hinv'.
  destruct (outcome (convert_channel self fr k)) eqn:Hout; cbn.
  - intros (k' & Hk' & Hnone)%IH; [|done|].
    + exists k'. split; [by right|done].
    + intros k' Hk'. rewrite Hch. apply Hks. by right.
  - rewrite Hout. intros [= ->]. exists k. split; [left|].
    apply (convert_channel_IndexError self); [done|apply Hks; left|done].
Qed.

(** X4. A frame with fewer rows than the converter has channels is
    refused with IndexError, and under the shape invariant nothing else
    raises IndexError. The refusal comes late: with rows of at least
    [L + Hs] samples (on a first call, or with [L >= 1] and [Hs >= 1]) every
    channel that has a row is processed first, so both buffers already hold
    the slices of those rows when the exception leaves the call. *)
Theorem missing_rows_IndexError self fr :
  invariant self →
  let r := convert_frame self fr in
  (outcome r = Raise IndexError → length fr < _channels self) ∧
  (length fr < _channels self →
   (∀ k row, fr !! k = Some row →
      _frame_length self + _synthesis_hop self ≤ length row) →
   _first self = true ∨ (1 ≤ _frame_length self ∧ 1 ≤ _synthesis_hop self) →
   outcome r = Raise IndexError ∧
   ∀ k row, fr !! k = Some row →
     ∃ delta, deltas r !! k = Some delta ∧
       _synthesis_frame (post r) !! k
       = Some (slice row delta (delta + _frame_length self)) ∧
       _natural_progression (post r) !! k
       = Some (slice row (delta + _synthesis_hop self)
                 (delta + _synthesis_hop self + _frame_length self))).
Proof.
  intros Hinv. cbv zeta. split.
  - unfold convert_frame.
    destruct (outcome (for_channels _ self fr)) as [[]|e] eqn:Hout; cbn; [done|].
    intros [= ->].
    apply for_channels_IndexError in Hout as (k & Hk & Hnone); [|done|].
    + apply elem_of_seq in Hk. apply lookup_ge_None in Hnone. lia.
    + intros k Hk. apply elem_of_seq in Hk. lia.
  - intros Hshort Hlong Hmode.
    destruct (for_channels_ok (length fr) 0 self fr) as (Hout1 & Hlen1 & Hpost);
      [done|lia| |by right|].
    { intros k Hk.
      destruct (lookup_lt_is_Some_2 fr k) as [row Hrow]; [lia|]. eauto. }
    unfold convert_frame.
    replace (seq 0 (_channels self))
      with (seq 0 (length fr) ++ seq (length fr) (_channels self - length fr))
      by (rewrite <-seq_app; f_equal; lia).
    rewrite for_channels_app, Hout1.
    destruct (_channels self - length fr) as [|m] eqn:Hm; [lia|].
    cbn [seq for_channels].
    destruct (convert_channel_missing
                (post (for_channels (seq 0 (length fr)) self fr)) fr (length fr))
      as [Hout2 Hpost2]; [by apply lookup_ge_None_2|].
    cbv zeta. rewrite Hout2. cbn. rewrite Hout2. cbn.
    rewrite ?Hout2, ?Hpost2. split; [done|].
    intros k row Hrow.
    assert (k < length fr) as Hk by by eapply lookup_lt_Some.
    destruct (Hpost k row ltac:(lia) Hrow) as (delta & Hd & _ & ? & ?).
    rewrite Nat.sub_0_r in Hd. exists delta.
    rewrite lookup_app_l by lia. done.
Qed.

Lemma convert_channel_tolerance T self fr k :
  convert_channel (with_tolerance T self) fr k
  = Run (with_tolerance T (post (convert_channel self fr k)))
      (deltas (convert_channel self fr k))
      (outcome (convert_channel self fr k)).
Proof.
  destruct self as [ch L Hs T0 sf pr first].
  unfold_call. unfold with_tolerance. cbn. by repeat (case_inner; cbn).
Qed.

Lemma for_channels_tolerance ks T self fr :
  for_channels ks (with_tolerance T self) fr
  = Run (with_tolerance T (post (for_channels ks self fr)))
      (deltas (for_channels ks self fr))
      (outcome (for_channels ks self fr)).
Proof.
  revert self. induction ks as [|k ks IH]; intros self; [done|]. cbn.
  rewrite convert_channel_tolerance. cbn.
  destruct (outcome (convert_channel self fr k)) eqn:Hout; cbn.
  - by rewrite IH.
  - by rewrite Hout.
Qed.

(** X5. [convert_frame] never reads [_tolerance]: with any other value of
    the attribute the call chooses the same shifts, ends the same way and
    leaves the same buffers. The tolerance bounds the shifts only through
    the length of the frames the caller supplies. *)
Theorem tolerance_never_read T self fr :
  let r := convert_frame self fr in
  let r' := convert_frame (with_tolerance T self) fr in
  deltas r' = deltas r ∧ outcome r' = outcome r ∧
  post r' = with_tolerance T (post r).
Proof.
  cbv zeta. unfold convert_frame. cbn [_channels with_tolerance].
  rewrite for_channels_tolerance. cbn.
  by destruct (outcome (for_channels _ self fr)).
Qed.

Lemma state_eq self1 self2 :
  same_configuration self1 self2 → _first self1 = _first self2 →
  _synthesis_frame self1 = _synthesis_frame self2 →
  _natural_progression self1 = _natural_progression self2 →
  self1 = self2.
Proof.
  destruct self1, self2. intros (?&?&?&?) ???. cbn in *. by subst.
Qed.

(** X6. What a converter did before it was cleared, and what [np.empty]
    left in the buffers of a new one, cannot be observed: two converters in
    first-call mode with the same configuration answer an extended frame
    with the same run, shifts, returned array and state after the call
    alike. *)
Theorem first_call_forgets self1 self2 fr :
  invariant self1 → invariant self2 →
  _first self1 = true → _first self2 = true →
  same_configuration self1 self2 → extended_frame self1 fr →
  convert_frame self1 fr = convert_frame self2 fr.
Proof.
  intros Hinv1 Hinv2 Hf1 Hf2 Hcfg Hfr1.
  pose proof Hcfg as (Hch & HL & HHs & HT).
  assert (extended_frame self2 fr) as Hfr2.
  { unfold extended_frame. by rewrite <-Hch, <-HL, <-HHs, <-HT. }
  assert (∀ self, invariant self → _first self = true →
    extended_frame self fr →
    let r := convert_frame self fr in
    deltas r = replicate (_channels self) 0 ∧
    outcome r = Ok (take (_frame_length self) <$> fr) ∧
    same_configuration (post r) self ∧ _first (post r) = false ∧
    _synthesis_frame (post r) = take (_frame_length self) <$> fr ∧
    _natural_progression (post r)
    = (λ row, slice row (_synthesis_hop self)
                (_synthesis_hop self + _frame_length self)) <$> fr) as Hrun.
  { intros self Hinv Hf Hfr.
    destruct (first_call self fr Hinv Hf Hfr) as (Hd & Hout & Hs).
    destruct (convert_frame_ok self fr) as (_ & Hf' & _ & Hrows);
      [done|by apply extended_frame_long|by right; left|].
    destruct (convert_frame_post self fr) as (Hcfg' & Hinv').
    destruct (Hinv' Hinv) as [_ [Hln _]]. pose proof Hcfg' as (Hc & _).
    cbv zeta. do 5 (split; [done|]).
    apply list_eq. intros k. rewrite list_lookup_fmap.
    destruct (decide (k < _channels self)) as [Hk|Hk].
    - destruct (extended_frame_rows self fr k Hfr Hk) as (row & Hrow & _).
      destruct (Hrows k row Hk Hrow) as (delta & Hdk & _ & _ & ->).
      rewrite Hd in Hdk. apply lookup_replicate_1 in Hdk as [-> _].
      by rewrite Hrow.
    - destruct Hfr as [Hlfr _].
      rewrite !lookup_ge_None_2; [done|lia..]. }
  destruct (Hrun self1 Hinv1 Hf1 Hfr1) as (Hd1 & Ho1 & Hc1 & Hff1 & Hs1 & Hn1).
  destruct (Hrun self2 Hinv2 Hf2 Hfr2) as (Hd2 & Ho2 & Hc2 & Hff2 & Hs2 & Hn2).
  destruct (convert_frame self1 fr) as [p1 d1 o1].
  destruct (convert_frame self2 fr) as [p2 d2 o2]. cbn in *.
  assert (p1 = p2) as ->.
  { apply state_eq; [|congruence|by rewrite Hs1, Hs2, HL|].
    - destruct Hc1 as (?&?&?&?), Hc2 as (?&?&?&?).
      repeat split; congruence.
    - by rewrite Hn1, Hn2, HL, HHs. }
  f_equal; congruence.
Qed.

End CallFacts.

(** ** From one call to the next *)

Section StreamFacts.
Context {A : Type} `{Sample A}.
Implicit Types (self : t A) (fr : list (list A)) (row : list A).

(** X7. Two calls in a row on extended frames, with [L >= 1] and
    [Hs >= 1]: the scores of the second call for a channel are the
    valid-overlap correlation of the first [L + T] samples of its new row
    with the slice [row1[delta1 + Hs : delta1 + Hs + L]] of the previous
    row, where [delta1] is the shift of the previous call; the second shift
    is the [np.argmax] of these scores, is at most [T], and selects the
    synthesis frame of the channel. *)
Theorem stream_step self fr1 fr2 k row1 row2 delta1 :
  invariant self → extended_frame self fr1 → extended_frame self fr2 →
  1 ≤ _frame_length self → 1 ≤ _synthesis_hop self →
  fr1 !! k = Some row1 → fr2 !! k = Some row2 →
  deltas (convert_frame self fr1) !! k = Some delta1 →
  let self' := post (convert_frame self fr1) in
  let progression :=
    slice row1 (delta1 + _synthesis_hop self)
      (delta1 + _synthesis_hop self + _frame_length self) in
  let scores :=
    np.correlate_valid (take (_frame_length self + _tolerance self) row2)
      progression in
  cross_correlation self' fr2 k = Ok scores ∧
  ∃ delta2,
    np.argmax scores = Ok delta2 ∧
    deltas (convert_frame self' fr2) !! k = Some delta2 ∧
    delta2 ≤ _tolerance self ∧
    _synthesis_frame (post (convert_frame self' fr2)) !! k
    = Some (slice row2 delta2 (delta2 + _frame_length self)).
Proof.
  intros Hinv Hfr1 Hfr2 HL HHs Hrow1 Hrow2 Hd1. cbv zeta.
  destruct (has_shape_lookup _ _ _ _ _ Hfr1 Hrow1) as [Hk Hlen1].
  destruct (has_shape_lookup _ _ _ _ _ Hfr2 Hrow2) as [_ Hlen2].
  destruct (convert_frame_ok self fr1) as (_ & Hf1 & _ & Hrows1);
    [done|by apply extended_frame_long|by right; right|].
  destruct (Hrows1 k row1 Hk Hrow1) as (d & Hd & Hb1 & _ & Hn).
  assert (d = delta1) as -> by congruence.
  destruct (convert_frame_post self fr1) as ((Hch & HL' & HHs' & HT') & Hinv').
  specialize (Hinv' Hinv).
  set (self' := post (convert_frame self fr1)) in *.
  assert (extended_frame self' fr2) as Hfr2'.
  { unfold extended_frame. by rewrite Hch, HL', HHs', HT'. }
  pose proof (cross_correlation_valid self' fr2 k row2 _ Hrow2 Hn) as Hcc.
  rewrite HL', HHs' in Hcc.
  rewrite Hcc by (rewrite ?length_slice_inside; lia).
  replace (length row2 - _synthesis_hop self)
    with (_frame_length self + _tolerance self) by lia.
  split; [done|].
  destruct (convert_frame_ok self' fr2) as (_ & _ & _ & Hrows2);
    [done|by apply extended_frame_long|right; right; lia|].
  destruct (Hrows2 k row2 ltac:(lia) Hrow2) as (delta2 & Hd2 & Hb2 & Hs2 & _).
  rewrite HL', HHs' in Hb2. rewrite HL' in Hs2.
  exists delta2.
  destruct (convert_frame_deltas self' fr2 k delta2 Hd2) as [_ Hchoice].
  apply choose_delta_Ok_inv in Hchoice as (scores & Hcc' & Hmax); [|done].
  rewrite Hcc in Hcc' by (rewrite ?length_slice_inside; lia).
  injection Hcc' as <-.
  replace (length row2 - _synthesis_hop self)
    with (_frame_length self + _tolerance self) in Hmax by lia.
  split; [done|]. split; [done|]. split; [lia|done].
Qed.

End StreamFacts.

(** ** Silence *)

Section SilenceFacts.
Context {A : Type} `{SampleOrder A} `{!SampleZero A}.
Implicit Types (self : t A) (fr : list (list A)) (row v : list A).









End SilenceFacts.

(** ** The deriver and the converter it builds *)

Section DeriverFacts.
Context {A : Type} `{Sample A} {window : Type} (hanning : nat → window).
Import audiotsm.

(** X9. With no [analysis_hop] given, a speed that is NaN or infinite makes
    [wsola] raise, whatever the other arguments are: the product with the
    synthesis hop is NaN or infinite (or the hop does not convert to a
    float) and [int] refuses it. No object is returned. *)
Theorem wsola_nonfinite_speed (junk_s junk_n : nat → nat → A)
    (channels frame_length : nat) (synthesis_hop tolerance : option nat)
    (speed : float) :
  Prim2SF speed = S754_nan ∨ (∃ s, Prim2SF speed = S754_infinity s) →
  is_Ok (wsola hanning junk_s junk_n channels speed frame_length None
           synthesis_hop tolerance) = false.
Proof.
  intros Hspeed. unfold wsola, int_mul_float, float_of_int.
  set (Hs := match synthesis_hop with Some h => h | None => _ end).
  set (y := SF2Prim _).
  destruct (Prim2SF y) as [sy|sy| |sy my ey] eqn:Hy; cbn; try done;
    unfold int_of_float; rewrite mul_spec, Hy;
    destruct Hspeed as [->|[s ->]]; done.
Qed.

(** X10. The object [wsola] returns is consistent with the converter
    inside it: the converter has well-shaped buffers, is in first-call mode
    and carries the resolved channel count, frame length, hop and tolerance;
    the padding handed to the framework is its tolerance plus its synthesis
    hop, so a frame of frame_length + padding samples per channel is an
    extended frame for it, and the first call on such a frame returns the
    first frame_length samples of every row. With the default synthesis hop
    and a frame length of at least 2 the hop is at least 1 and at most the
    frame length, and then every later call on such a frame returns too. *)
Theorem wsola_converter_accepts (junk_s junk_n : nat → nat → A)
    (channels frame_length : nat) (speed : float) (analysis_hop : option Z)
    (synthesis_hop tolerance : option nat) tsm :
  wsola hanning junk_s junk_n channels speed frame_length analysis_hop
    synthesis_hop tolerance = Ok tsm →
  let c := tsm_converter tsm in
  invariant c ∧ _first c = true ∧
  _channels c = tsm_channels tsm ∧ _frame_length c = tsm_frame_length tsm ∧
  _synthesis_hop c = tsm_synthesis_hop tsm ∧
  _tolerance c = tsm_tolerance tsm ∧
  tsm_padding tsm = _tolerance c + _synthesis_hop c ∧
  (synthesis_hop = None → 2 ≤ frame_length →
   1 ≤ _synthesis_hop c ≤ _frame_length c) ∧
  ∀ fr,
    has_shape fr (tsm_channels tsm) (tsm_frame_length tsm + tsm_padding tsm) →
    extended_frame c fr ∧
    outcome (convert_frame c fr) = Ok (take (tsm_frame_length tsm) <$> fr) ∧
    ∀ self, invariant self → same_configuration self c →
      1 ≤ _frame_length c → 1 ≤ _synthesis_hop c →
      is_Ok (outcome (convert_frame self fr)) = true.
Proof.
  intros Hw. cbv zeta.
  assert (∃ Ha, tsm =
    TSM (__init__ junk_s junk_n channels frame_length
           (default (Nat.div frame_length 2) synthesis_hop)
           (default (Nat.div frame_length 2) tolerance))
      channels frame_length Ha
      (default (Nat.div frame_length 2) synthesis_hop) None
      (hanning frame_length)
      (default (Nat.div frame_length 2) tolerance)
      (default (Nat.div frame_length 2) tolerance
       + default (Nat.div frame_length 2) synthesis_hop)) as [Ha ->].
  { unfold wsola in Hw.
    destruct analysis_hop as [h|]; cbn in Hw.
    - exists h. destruct synthesis_hop, tolerance; by injection Hw as <-.
    - destruct (int_mul_float _ speed) as [x|]; [|done]. cbn in Hw.
      destruct (int_of_float x) as [h|]; [|done]. cbn in Hw.
      exists h. destruct synthesis_hop, tolerance; by injection Hw as <-. }
  cbn. split; [apply init_invariant|]. do 6 (split; [done|]). split.
  { intros -> HL. cbn [default].
    change (fst (Nat.divmod frame_length 1 0 1)) with (Nat.div frame_length 2).
    pose proof (Nat.div_mod_eq frame_length 2).
    pose proof (Nat.mod_upper_bound frame_length 2 ltac:(lia)). lia. }
  intros fr Hfr.
  assert (extended_frame
            (__init__ junk_s junk_n channels frame_length
               (default (Nat.div frame_length 2) synthesis_hop)
               (default (Nat.div frame_length 2) tolerance)) fr) as Hext.
  { unfold extended_frame. cbn. by rewrite <-Nat.add_assoc. }
  split; [done|]. split.
  - by apply (first_call (__init__ _ _ _ _ _ _) fr);
      [apply init_invariant| |].
  - intros self Hinv (Hch & HL & HHs & HT) HL1 HHs1. cbn in *.
    destruct (convert_frame_ok self fr) as (Hout & _);
      [done| |right; right; lia|by rewrite Hout].
    apply extended_frame_long. unfold extended_frame.
    by rewrite Hch, HL, HHs, HT.
Qed.

End DeriverFacts.

(** ** The further properties on concrete converters *)

#[global] Instance Z_sample_zero : SampleZero Z.
Proof.
  assert (∀ z : Z, is_zero z ↔ z = 0%Z) as Hz.
  { intros z. unfold is_zero. cbn. rewrite !Z.leb_le. lia. }
  split; intros ??; rewrite !Hz; cbn; lia.
Qed.

(** X1 on the stereo converter. *)
Lemma call_keeps_shape_witness :
  outcome (convert_frame stereo_converter stereo_frame) = Ok [[2; 3]; [4; 3]]%Z ∧
  same_configuration (post (convert_frame stereo_converter stereo_frame))
    stereo_converter ∧
  invariant (post (convert_frame stereo_converter stereo_frame)) ∧
  ∀ out, outcome (convert_frame stereo_converter stereo_frame) = Ok out →
    out = _synthesis_frame (post (convert_frame stereo_converter stereo_frame)) ∧
    has_shape out 2 2 ∧
    length (deltas (convert_frame stereo_converter stereo_frame)) = 2 ∧
    _first (post (convert_frame stereo_converter stereo_frame)) = false.
Proof.
  split; [by vm_compute|].
  apply (call_keeps_shape stereo_converter stereo_frame). shape.
Defined.

(** X2: the stereo converter refuses a frame with one row after processing
    channel 0; row 1 of both buffers is untouched. *)
Lemma raise_leaves_flag_witness :
  deltas (convert_frame stereo_converter mono_frame) = [1] ∧
  _synthesis_frame (post (convert_frame stereo_converter mono_frame))
  = [[2; 3]; [0; 0]]%Z ∧
  _first (post (convert_frame stereo_converter mono_frame))
  = _first stereo_converter ∧
  (IndexError = IndexError ∨ IndexError = ValueError) ∧
  ∀ j, length (deltas (convert_frame stereo_converter mono_frame)) ≤ j →
    _synthesis_frame (post (convert_frame stereo_converter mono_frame)) !! j
    = _synthesis_frame stereo_converter !! j ∧
    _natural_progression (post (convert_frame stereo_converter mono_frame)) !! j
    = _natural_progression stereo_converter !! j.
Proof.
  split; [by vm_compute|]. split; [by vm_compute|].
  apply (raise_leaves_flag stereo_converter mono_frame IndexError).
  by vm_compute.
Defined.

(** X4 on the same call. *)
Lemma missing_rows_IndexError_witness :
  (outcome (convert_frame stereo_converter mono_frame) = Raise IndexError →
   length mono_frame < 2) ∧
  (length mono_frame < 2 →
   (∀ k row, mono_frame !! k = Some row → 2 + 1 ≤ length row) →
   false = true ∨ (1 ≤ 2 ∧ 1 ≤ 1) →
   outcome (convert_frame stereo_converter mono_frame) = Raise IndexError ∧
   ∀ k row, mono_frame !! k = Some row →
     ∃ delta,
       deltas (convert_frame stereo_converter mono_frame) !! k = Some delta ∧
       _synthesis_frame (post (convert_frame stereo_converter mono_frame)) !! k
       = Some (slice row delta (delta + 2)) ∧
       _natural_progression (post (convert_frame stereo_converter mono_frame))
         !! k
       = Some (slice row (delta + 1) (delta + 1 + 2))).
Proof. apply (missing_rows_IndexError stereo_converter mono_frame). shape. Defined.

(** X6: a cleared converter with stale buffers and a new one. *)
Lemma first_call_forgets_witness :
  _natural_progression (clear stereo_converter)
  ≠ _natural_progression (__init__ junk junk 2 2 1 1) ∧
  convert_frame (clear stereo_converter) stereo_frame
  = convert_frame (__init__ junk junk 2 2 1 1) stereo_frame.
Proof.
  split; [by vm_compute|].
  apply (first_call_forgets (clear stereo_converter) (__init__ junk junk 2 2 1 1)
           stereo_frame); try reflexivity; shape.
Defined.

(** X7: two frames in a row on the stereo converter, channel 0. *)
Lemma stream_step_witness :
  cross_correlation (post (convert_frame stereo_converter stereo_frame))
    stereo_frame' 0 = Ok [11; 18]%Z ∧
  cross_correlation (post (convert_frame stereo_converter stereo_frame))
    stereo_frame' 0
  = Ok (np.correlate_valid (take (2 + 1) [1; 2; 3; 4]%Z)
          (slice [1; 2; 3; 4]%Z (1 + 1) (1 + 1 + 2))) ∧
  ∃ delta2,
    np.argmax (np.correlate_valid (take (2 + 1) [1; 2; 3; 4]%Z)
                 (slice [1; 2; 3; 4]%Z (1 + 1) (1 + 1 + 2))) = Ok delta2 ∧
    deltas (convert_frame (post (convert_frame stereo_converter stereo_frame))
              stereo_frame') !! 0 = Some delta2 ∧
    delta2 ≤ 1 ∧
    _synthesis_frame
      (post (convert_frame (post (convert_frame stereo_converter stereo_frame))
               stereo_frame')) !! 0
    = Some (slice [1; 2; 3; 4]%Z delta2 (delta2 + 2)).
Proof.
  split; [by vm_compute|].
  apply (stream_step stereo_converter stereo_frame stereo_frame' 0
           [1; 2; 3; 4]%Z [1; 2; 3; 4]%Z 1);
    try reflexivity; try (cbn; lia); shape.
Defined.


(** X9 at the speed NaN. *)
Lemma wsola_nonfinite_speed_witness :
  Prim2SF nan = S754_nan ∧
  is_Ok (audiotsm.wsola no_window junk junk 2 nan 4 None None None) = false.
Proof.
  split; [by vm_compute|].
  apply (wsola_nonfinite_speed no_window junk junk 2 4 None None nan).
  left. by vm_compute.
Defined.

(** X10 for [wsola(channels=2, speed=1.5, frame_length=4)]: Hs = T = 2,
    padding 4, frames of 8 samples per channel. *)
Lemma wsola_converter_accepts_witness :
  ∃ tsm,
    audiotsm.wsola no_window junk junk 2 (1.5)%float 4 None None None = Ok tsm ∧
    audiotsm.tsm_padding tsm = 4 ∧
    invariant (audiotsm.tsm_converter tsm) ∧
    _first (audiotsm.tsm_converter tsm) = true ∧
    _channels (audiotsm.tsm_converter tsm) = audiotsm.tsm_channels tsm ∧
    _frame_length (audiotsm.tsm_converter tsm) = audiotsm.tsm_frame_length tsm ∧
    _synthesis_hop (audiotsm.tsm_converter tsm) = audiotsm.tsm_synthesis_hop tsm ∧
    _tolerance (audiotsm.tsm_converter tsm) = audiotsm.tsm_tolerance tsm ∧
    audiotsm.tsm_padding tsm
    = _tolerance (audiotsm.tsm_converter tsm)
      + _synthesis_hop (audiotsm.tsm_converter tsm) ∧
    (@None nat = None → 2 ≤ 4 →
     1 ≤ _synthesis_hop (audiotsm.tsm_converter tsm)
       ≤ _frame_length (audiotsm.tsm_converter tsm)) ∧
    ∀ fr,
      has_shape fr (audiotsm.tsm_channels tsm)
        (audiotsm.tsm_frame_length tsm + audiotsm.tsm_padding tsm) →
      extended_frame (audiotsm.tsm_converter tsm) fr ∧
      outcome (convert_frame (audiotsm.tsm_converter tsm) fr)
      = Ok (take (audiotsm.tsm_frame_length tsm) <$> fr) ∧
      ∀ self, invariant self →
        same_configuration self (audiotsm.tsm_converter tsm) →
        1 ≤ _frame_length (audiotsm.tsm_converter tsm) →
        1 ≤ _synthesis_hop (audiotsm.tsm_converter tsm) →
        is_Ok (outcome (convert_frame self fr)) = true.
Proof.
  eexists. split; [by vm_compute|]. split; [by vm_compute|].
  apply (wsola_converter_accepts no_window junk junk 2 4 (1.5)%float
           None None None).
  by vm_compute.
Defined.
